(** * Citation pipeline of core-frontend.V2: a shallow embedding

    The development follows the TypeScript sources:

    - [JS]: the string primitives of the JavaScript runtime the services use
      ([toLowerCase], [split], [indexOf], [substring], [trim], [replace],
      [encodeURIComponent]);
    - [PDFExtraction]: [PDFExtractionService] (page extraction with the
      range guard, highlight links);
    - [SourceExtraction]: [SourceExtractionService] (page-reference parser,
      text cache, extraction strategies, keyword fallback, pipeline);
    - [SourcesPanel]: the ordering applied by [PDFSourcesPanel];
    - [Switcher]: [AIServiceSwitcher] (provider selection and fallbacks).

    Conventions.  A JavaScript string is a Rocq [string], one [ascii] per
    code unit in the Latin-1 range.  Page numbers and indices are integers
    ([Z]); where the code reads a number from text, it is a [JS.Number],
    the double [parseInt] returns.  Asynchronous, effectful methods are
    functions in a small state-and-exception monad: the state records what
    the method has done to the outside world, a rejected promise or a
    thrown error is [Throw]. *)

From Stdlib Require Import ZArith String Ascii List Lia Lqa DecimalString DecimalPos QArith.
From stdpp Require Import base option list sorting strings gmap.

Local Open Scope string_scope.
Local Open Scope Z_scope.

(* ===================================================================== *)
(** * JavaScript string primitives *)
(* ===================================================================== *)

Module JS.

Definition code (c : ascii) : N := N_of_ascii c.

Definition in_range (lo hi : N) (c : ascii) : bool :=
  ((lo <=? code c) && (code c <=? hi))%N.

(** [\d] without the [u] flag: the ten ASCII digits. *)
Definition is_digit (c : ascii) : bool := in_range 48 57 c.
(** [[A-Z]]. *)
Definition is_upper (c : ascii) : bool := in_range 65 90 c.
Definition is_lower (c : ascii) : bool := in_range 97 122 c.
(** [\w]: letters, digits and the underscore. *)
Definition is_word (c : ascii) : bool :=
  is_upper c || is_lower c || is_digit c || (code c =? 95)%N.
(** [\s], and the characters [trim] removes: TAB, LF, VT, FF, CR, space and
    the no-break space. *)
Definition is_space (c : ascii) : bool :=
  in_range 9 13 c || (code c =? 32)%N || (code c =? 160)%N.

(** [toLowerCase] on one code unit: A-Z, and the upper-case letters of the
    Latin-1 supplement (U+00C0..U+00DE but the multiplication sign). *)
Definition lower_char (c : ascii) : ascii :=
  if is_upper c || (in_range 192 222 c && negb (code c =? 215)%N)
  then ascii_of_N (code c + 32)
  else c.

Fixpoint toLowerCase (s : string) : string :=
  match s with
  | EmptyString => EmptyString
  | String c r => String (lower_char c) (toLowerCase r)
  end.

Definition len (s : string) : Z := Z.of_nat (String.length s).

(** [s.indexOf(w)]: index of the first occurrence, [-1] when there is none. *)
Fixpoint index_from (i : Z) (w s : string) : Z :=
  if String.prefix w s then i
  else match s with
       | EmptyString => -1
       | String _ r => index_from (i + 1) w r
       end.

Definition indexOf (s w : string) : Z := index_from 0 w s.

Definition drop (n : nat) (s : string) : string :=
  String.substring n (String.length s - n) s.

(** [s.indexOf(w, from)]. *)
Definition indexOf_at (s w : string) (from : Z) : Z :=
  let k := Z.min (Z.max 0 from) (len s) in
  index_from k w (drop (Z.to_nat k) s).

(** [s.substring(a, b)]: both bounds are clamped to [0, length] and swapped
    when out of order. *)
Definition substring (s : string) (a b : Z) : string :=
  let a' := Z.min (Z.max 0 a) (len s) in
  let b' := Z.min (Z.max 0 b) (len s) in
  let lo := Z.min a' b' in
  let hi := Z.max a' b' in
  String.substring (Z.to_nat lo) (Z.to_nat (hi - lo)) s.

Fixpoint trimStart (s : string) : string :=
  match s with
  | String c r => if is_space c then trimStart r else s
  | EmptyString => EmptyString
  end.

(** Trailing white space is dropped on the way back: a white-space
    character stays only when something remains after it. *)
Fixpoint trimEnd (s : string) : string :=
  match s with
  | EmptyString => EmptyString
  | String c r =>
      match trimEnd r with
      | EmptyString => if is_space c then EmptyString else String c EmptyString
      | r' => String c r'
      end
  end.

Definition trim (s : string) : string := trimEnd (trimStart s).

(** [s.split(' ')]: the pieces between single spaces, empty pieces kept. *)
Fixpoint split_space (s : string) : list string :=
  match s with
  | EmptyString => [EmptyString]
  | String c r =>
      if (code c =? 32)%N then EmptyString :: split_space r
      else match split_space r with
           | w :: ws => String c w :: ws
           | [] => [String c EmptyString]
           end
  end.

(** [s.split(/\s+/)]: the pieces between maximal runs of white space; a
    leading or trailing run leaves an empty piece at that end.  [in_gap]
    says that the previous character was white space. *)
Fixpoint split_ws_from (in_gap : bool) (s : string) : list string :=
  match s with
  | EmptyString => [EmptyString]
  | String c r =>
      if is_space c then
        if in_gap then split_ws_from true r
        else EmptyString :: split_ws_from true r
      else match split_ws_from false r with
           | w :: ws => String c w :: ws
           | [] => [String c EmptyString]
           end
  end.

Definition split_ws (s : string) : list string := split_ws_from false s.

(** [ws.join(sep)]. *)
Fixpoint join (sep : string) (ws : list string) : string :=
  match ws with
  | [] => EmptyString
  | [w] => w
  | w :: ws' => w ++ sep ++ join sep ws'
  end.

(** [s.replace(/[^\w\s]/g, ' ')]. *)
Fixpoint blank_punctuation (s : string) : string :=
  match s with
  | EmptyString => EmptyString
  | String c r =>
      String (if is_word c || is_space c then c else " "%char)
             (blank_punctuation r)
  end.

Definition hex_digit (n : N) : ascii :=
  if (n <? 10)%N then ascii_of_N (48 + n) else ascii_of_N (55 + n).

Definition percent (byte : N) : string :=
  String "%" (String (hex_digit (byte / 16)) (String (hex_digit (byte mod 16)) EmptyString)).

(** Characters [encodeURIComponent] leaves alone: letters, digits and
    [- _ . ! ~ * ' ( )]. *)
Definition is_unreserved (c : ascii) : bool :=
  is_upper c || is_lower c || is_digit c ||
  existsb (N.eqb (code c)) [45; 95; 46; 33; 126; 42; 39; 40; 41]%N.

(** Every other code unit is written as the percent-escaped bytes of its
    UTF-8 encoding: one byte below U+0080, two bytes up to U+00FF. *)
Definition encode_char (c : ascii) : string :=
  if is_unreserved c then String c EmptyString
  else if (code c <? 128)%N then percent (code c)
  else percent (192 + code c / 64) ++ percent (128 + code c mod 64).

Fixpoint encodeURIComponent (s : string) : string :=
  match s with
  | EmptyString => EmptyString
  | String c r => encode_char c ++ encodeURIComponent r
  end.

(** A template placeholder holding an integer: its decimal writing. *)
Definition show (n : Z) : string := NilZero.string_of_int (Z.to_int n).

Definition digit_value (c : ascii) : Z := Z.of_N (code c) - 48.

(** The integer a string of decimal digits denotes. *)
Definition mathInt (ds : string) : Z :=
  fold_left (fun acc c => 10 * acc + digit_value c) (list_ascii_of_string ds) 0.

(** A number of the language, as far as page numbers go: a double whose
    value is an integer, given by that value, or [Infinity]. *)
Inductive Number : Type :=
| Finite (z : Z)
| Infinity.

(** The double nearest to the integer [z >= 0], overflow apart: a double
    has 53 significant bits, so from [2 ^ 53] on the integer is rounded to
    a multiple of [ulp], to the nearest one and, half way between two, to
    the one whose significand is even. *)
Definition nearest (z : Z) : Z :=
  let e := Z.log2 z - 52 in
  if e <=? 0 then z
  else
    let ulp := 2 ^ e in
    let q := z / ulp in
    let r := z mod ulp in
    let up := (ulp <? 2 * r) || ((2 * r =? ulp) && Z.odd q) in
    (if up then q + 1 else q) * ulp.

(** The number value of the integer [z >= 0]: the nearest double, and
    [Infinity] when that is [2 ^ 1024] or more. *)
Definition toNumber (z : Z) : Number :=
  let v := nearest z in
  if 2 ^ 1024 <=? v then Infinity else Finite v.

(** [parseInt(ds, 10)] on a string of decimal digits: the number value of
    the integer the digits denote.  (The language lets an engine replace
    the digits after the 20th by zeros before it rounds; the engines round
    the integer itself, and so does the model.) *)
Definition parseInt (ds : string) : Number := toNumber (mathInt ds).

(** [Math.min] and [Math.max] of two numbers. *)
Definition min (a b : Number) : Number :=
  match a, b with
  | Finite x, Finite y => Finite (Z.min x y)
  | Finite _, Infinity => a
  | Infinity, _ => b
  end.

Definition max (a b : Number) : Number :=
  match a, b with
  | Finite x, Finite y => Finite (Z.max x y)
  | _, _ => Infinity
  end.

(** [a <= b]. *)
Definition le (a b : Number) : Prop :=
  match a, b with
  | Finite x, Finite y => x <= y
  | _, Infinity => True
  | Infinity, Finite _ => False
  end.

(** [Boolean(n)]: every number but zero. *)
Definition truthy_number (n : Number) : bool :=
  match n with
  | Finite z => negb (z =? 0)
  | Infinity => true
  end.

(** [n > 0]. *)
Definition positive (n : Number) : Prop :=
  match n with
  | Finite z => 0 < z
  | Infinity => True
  end.

(** [n >= 0]. *)
Definition nonnegative (n : Number) : Prop :=
  match n with
  | Finite z => 0 <= z
  | Infinity => True
  end.

(** [n] is an integer. *)
Definition is_integer (n : Number) : Prop :=
  match n with
  | Finite _ => True
  | Infinity => False
  end.

(** A truthy string is a non-empty one. *)
Definition truthy (s : string) : bool :=
  match s with EmptyString => false | _ => true end.

(** [a || b] on optional strings ([undefined] is [None]). *)
Definition or_else (a b : option string) : option string :=
  match a with
  | Some s => if truthy s then a else b
  | None => b
  end.

(** [a || d] with a string default. *)
Definition or_default (a : option string) (d : string) : string :=
  match a with
  | Some s => if truthy s then s else d
  | None => d
  end.

(** Every character of [s] passes the test [P]. *)
Definition all_chars (P : ascii -> bool) (s : string) : Prop :=
  Forall (fun c => P c = true) (list_ascii_of_string s).

(** The characters a highlighted word is made of: small letters, digits
    and the underscore. *)
Definition is_plain (c : ascii) : bool :=
  is_lower c || is_digit c || (code c =? 95)%N.

End JS.

(* ===================================================================== *)
(** * Effects: state and exceptions *)
(* ===================================================================== *)

Inductive Result (A : Type) : Type :=
| Ok (a : A)
| Throw.
Arguments Ok {A} a.
Arguments Throw {A}.

(** A computation over a state [S] that returns an [A] or throws. *)
Definition M (S A : Type) : Type := S -> Result A * S.

Definition ret {S A} (a : A) : M S A := fun s => (Ok a, s).
Definition throw {S A} : M S A := fun s => (Throw, s).

Definition bind {S A B} (m : M S A) (k : A -> M S B) : M S B :=
  fun s => match m s with
           | (Ok a, s') => k a s'
           | (Throw, s') => (Throw, s')
           end.

(** [try { m } catch { h }]: the effects of [m] up to the throw stay. *)
Definition try_catch {S A} (m : M S A) (h : M S A) : M S A :=
  fun s => match m s with
           | (Ok a, s') => (Ok a, s')
           | (Throw, s') => h s'
           end.

(** [try { m } catch { log only }]: the caller goes on with [None]. *)
Definition attempt {S A} (m : M S A) : M S (option A) :=
  fun s => match m s with
           | (Ok a, s') => (Ok (Some a), s')
           | (Throw, s') => (Ok None, s')
           end.

Declare Scope m_scope.
Delimit Scope m_scope with M.
Notation "x <- m ;; k" := (bind m (fun x => k))
  (at level 100, m at next level, right associativity) : m_scope.

(* ===================================================================== *)
(** * The browser session *)
(* ===================================================================== *)

(** What a method does to the outside world. *)
Inductive Event : Type :=
| Ev_getDocument (url : string)   (* pdf.js loads the document at [url] *)
| Ev_fetch (url : string)         (* [fetch(url)], then pdf-parse *)
| Ev_openai                       (* a chat completion asked of OpenAI *)
| Ev_groq.                        (* a chat completion asked of Groq *)

(** The [console.warn] of the page loop of [extractPages]; no other
    console output of the services is recorded. *)
Inductive Warning : Type :=
| Warn_out_of_range (pageNum numPages : Z).

(** The state the extraction services run in: the text cache of the
    [SourceExtractionService] instance (document id to page texts), the
    outside calls made so far, and the warnings the page loop has written
    so far. *)
Record Session : Type := {
  textCache : gmap string (list string);
  trace : list Event;
  console : list Warning
}.

Definition emit (e : Event) (s : Session) : Session :=
  {| textCache := textCache s; trace := trace s ++ [e]; console := console s |}.

Definition warn (w : Warning) : M Session unit :=
  fun s => (Ok tt, {| textCache := textCache s; trace := trace s;
                      console := console s ++ [w] |}).

(** An outside call: it is recorded, and its outcome may depend on all the
    calls made before it. *)
Definition call {A} (e : Event) (outcome : list Event -> option A) : M Session A :=
  fun s => match outcome (trace s) with
           | Some a => (Ok a, emit e s)
           | None => (Throw, emit e s)
           end.

(** A service instance as its constructor leaves it. *)
Definition fresh : Session := {| textCache := ∅; trace := []; console := [] |}.

(** A computation that leaves the text cache as it found it. *)
Definition keeps_cache {A} (m : M Session A) : Prop :=
  forall s, textCache (m s).2 = textCache s.

(** The session [s] with the warnings [ws] written after its own. *)
Definition withWarnings (ws : list Warning) (s : Session) : Session :=
  {| textCache := textCache s; trace := trace s; console := console s ++ ws |}.

(* ===================================================================== *)
(** * PDFExtractionService *)
(* ===================================================================== *)

Module PDFExtraction.

(** A loaded document: its page count and, per page number, the text of
    the page in reading order (the value [pageText] of the source, that is
    the text items sorted by position, joined and white-space normalised);
    [None] when [getPage] or [getTextContent] rejects. *)
Record PDFDocumentProxy : Type := {
  numPages : Z;
  readPage : Z -> option string
}.

(** [pdfjsLib.getDocument(...).promise]: [None] when loading fails. *)
Definition PdfJs : Type := list Event -> string -> option PDFDocumentProxy.

(** [PDFPage], without the positioned text items. *)
Record PDFPage : Type := {
  pageNumber : Z;
  text : string
}.

(** The [for (const pageNum of pageNumbers)] loop. *)
Fixpoint extractLoop (pdf : PDFDocumentProxy) (pageNumbers : list Z)
  : M Session (list PDFPage) :=
  match pageNumbers with
  | [] => ret []
  | pageNum :: rest =>
      if (pageNum <? 1) || (pageNum >? numPages pdf) then
        (_ <- warn (Warn_out_of_range pageNum (numPages pdf));;
         extractLoop pdf rest)%M
      else
        match readPage pdf pageNum with
        | None => throw
        | Some pageText =>
            (results <- extractLoop pdf rest;;
             ret ({| pageNumber := pageNum; text := pageText |} :: results))%M
        end
  end.

(** [extractPages]: any failure is thrown again as "PDF extraction failed". *)
Definition extractPages (pdfjs : PdfJs) (pdfUrl : string) (pageNumbers : list Z)
  : M Session (list PDFPage) :=
  (pdf <- call (Ev_getDocument pdfUrl) (fun h => pdfjs h pdfUrl);;
   extractLoop pdf pageNumbers)%M.

(** The words kept for the viewer's search box. *)
Definition highlightWords (searchText : string) : list string :=
  take 3 (filter (fun word => 3 <? JS.len word)
                 (JS.split_ws (JS.blank_punctuation (JS.toLowerCase searchText)))).

Definition generateHighlightURL (pdfUrl : string) (page : Z) (searchText : string)
  : string :=
  let words := JS.join " " (highlightWords searchText) in
  pdfUrl ++ "#page=" ++ JS.show page ++ "&search=" ++ JS.encodeURIComponent words.

End PDFExtraction.

(* ===================================================================== *)
(** * SourceExtractionService *)
(* ===================================================================== *)

Module SourceExtraction.

Inductive Relevance : Type := high | medium | low.

(** [PageReference]. *)
Record PageReference : Type := {
  page : Z;
  section : option string;
  exactText : string;
  relevance : Relevance;
  context : string;
  highlightURL : option string
}.

(** [ExtractionResult]; the confidence is a rational number. *)
Record ExtractionResult : Type := {
  sources : list PageReference;
  confidence : Q
}.

(** [DocumentInfo]. *)
Record DocumentInfo : Type := {
  id : string;
  name : string;
  url : option string;
  file_url : option string
}.

(** The objects [{ page, content }] the extraction strategies return. *)
Record PageText : Type := {
  pnum : Z;
  content : string
}.

(** What [JSON.parse] makes of the reply of a model; the code casts it
    to [ExtractionResult] without a check.  [Typed]: the object has the
    fields of an [ExtractionResult].  [Untyped]: [sources] is a list, but
    one of its entries has no string [exactText]. *)
Inductive Reply : Type :=
| Typed (result : ExtractionResult)
| Untyped.

(** A text-matching model: the question, the answer and the page texts
    go in; the parsed JSON reply comes out, [None] when the call fails,
    the reply is empty, it does not parse or it has no [sources] (whose
    length [findSourcesWithOpenAI] and [findSourcesWithGroq] read). *)
Definition Matcher : Type :=
  list Event -> string -> string -> list PageText -> option Reply.

(** What the service runs on and talks to.  [openai] and [groq] are
    [None] when the API key is not configured (the constructor leaves the
    client [null]). *)
Record World : Type := {
  (* the number of elements the engine lets an array grow to *)
  arrayLimit : Z;
  pdfjs : PDFExtraction.PdfJs;
  (* [import('pdf-parse/lib/pdf-parse.js')]: does the module load *)
  pdfParseModule : list Event -> bool;
  (* [fetch] and pdf-parse: the text of the whole document and [numpages] *)
  pdfParse : list Event -> string -> option (string * Z);
  openai : option Matcher;
  groq : option Matcher
}.

(* --------------------------------------------------------------------- *)
(** ** Page references *)

(** The longest run of digits at the head of [s], and what follows it. *)
Fixpoint span_digits (s : string) : string * string :=
  match s with
  | String c r =>
      if JS.is_digit c then
        let (ds, rest) := span_digits r in (String c ds, rest)
      else (EmptyString, s)
  | EmptyString => (EmptyString, EmptyString)
  end.

Definition all_digits (ds : string) : Prop := JS.all_chars JS.is_digit ds.

(** A match of [/\[P(\d+)\]/] at the head of [s]: the captured digits and
    the length of the whole match. *)
Definition match_marker (s : string) : option (string * nat) :=
  match s with
  | String c0 (String c1 r) =>
      if Ascii.eqb c0 "[" && Ascii.eqb c1 "P" then
        match span_digits r with
        | (String d ds, String c2 _) =>
            if Ascii.eqb c2 "]"
            then Some (String d ds, (3 + String.length (String d ds))%nat)
            else None
        | _ => None
        end
      else None
  | _ => None
  end.

(** [response.matchAll(pageRegex)], the captured groups: the string is
    scanned from left to right; after a match the search resumes behind
    it ([skip] counts the characters of the match still to pass). *)
Fixpoint matchAll_from (skip : nat) (s : string) : list string :=
  match s with
  | EmptyString => []
  | String _ rest =>
      match skip with
      | S k => matchAll_from k rest
      | O =>
          match match_marker s with
          | Some (ds, n) => ds :: matchAll_from (n - 1) rest
          | None => matchAll_from 0 rest
          end
      end
  end.

Definition matchAll (s : string) : list string := matchAll_from 0 s.

(** [filter(Boolean)] on numbers drops zero. *)
Definition parsePageReferences (response : string) : list JS.Number :=
  filter (fun n => JS.truthy_number n) (map JS.parseInt (matchAll response)).

(* --------------------------------------------------------------------- *)
(** ** Text of the pages *)

(** [pages[i]], [undefined] out of range. *)
Definition at_index (pages : list string) (i : Z) : option string :=
  if i <? 0 then None else pages !! Z.to_nat i.

Definition placeholder (page : Z) : string :=
  "Unable to extract specific content from page " ++ JS.show page ++ ".

      This document may have complex formatting or access restrictions.
      The AI response above is based on the document content, but exact page text extraction failed.".

Definition fallbackPDFExtraction (pdfUrl : string) (pageNumbers : list Z)
  : list PageText :=
  map (fun page => {| pnum := page; content := placeholder page |}) pageNumbers.

(** The loop of [splitTextIntoPages].  The test
    [nextSentenceEnd - end < avgPageLength * 0.3] compares an integer with
    a product by the double nearest to 0.3, which lies just below 0.3: it
    holds exactly when [10 * (nextSentenceEnd - end) < 3 * avgPageLength]. *)
Fixpoint splitLoop (n : nat) (text : string) (avgPageLength currentPos : Z)
  : list string :=
  match n with
  | O => []
  | S n' =>
      let textLength := JS.len text in
      let start := currentPos in
      let end_ := Z.min (currentPos + avgPageLength) textLength in
      let actualEnd :=
        if end_ <? textLength then
          let nextSentenceEnd := JS.indexOf_at text "." end_ in
          if negb (nextSentenceEnd =? -1)
             && (10 * (nextSentenceEnd - end_) <? 3 * avgPageLength)
          then nextSentenceEnd + 1 else end_
        else end_ in
      JS.trim (JS.substring text start actualEnd)
        :: splitLoop n' text avgPageLength actualEnd
  end.

Definition splitTextIntoPages (text : string) (totalPages : Z) : list string :=
  if totalPages <=? 0 then []
  else splitLoop (Z.to_nat totalPages) text (JS.len text / totalPages) 0.

(** A dynamic [import]: the module loads, or the import rejects; the
    document is not touched. *)
Definition importModule (loads : list Event -> bool) : M Session unit :=
  fun s => if loads (trace s) then (Ok tt, s) else (Throw, s).

(** [extractRealPDFText] never throws: a failure of the import, of the
    fetch or of the parser is answered by the placeholder. *)
Definition extractRealPDFText (W : World) (pdfUrl : string) (pageNumbers : list Z)
  : M Session (list PageText) :=
  try_catch
    (_ <- importModule (pdfParseModule W);;
     pdfData <- call (Ev_fetch pdfUrl) (fun h => pdfParse W h pdfUrl);;
     let pages := splitTextIntoPages pdfData.1 pdfData.2 in
     ret (map (fun pageNum =>
                 {| pnum := pageNum;
                    content := JS.or_default (at_index pages (pageNum - 1))
                                 ("Page " ++ JS.show pageNum ++ " content not available") |})
              pageNumbers))%M
    (ret (fallbackPDFExtraction pdfUrl pageNumbers)).

Definition extractViaPDFjs (W : World) (document : DocumentInfo) (pageNumbers : list Z)
  : M Session (list PageText) :=
  match JS.or_else (url document) (file_url document) with
  | None => throw
  | Some pdfUrl =>
      if JS.truthy pdfUrl then
        (extractedPages <- PDFExtraction.extractPages (pdfjs W) pdfUrl pageNumbers;;
         ret (map (fun p => {| pnum := PDFExtraction.pageNumber p;
                               content := PDFExtraction.text p |})
                  extractedPages))%M
      else throw
  end.

Definition getCache (documentId : string) : M Session (option (list string)) :=
  fun s => (Ok (textCache s !! documentId), s).

Definition extractTextFromPages (W : World) (document : DocumentInfo)
  (pageNumbers : list Z) : M Session (list PageText) :=
  try_catch
    (cachedText <- getCache (id document);;
     match cachedText with
     | Some cached =>
         ret (map (fun pageNum =>
                     {| pnum := pageNum;
                        content := JS.or_default (at_index cached (pageNum - 1)) "" |})
                  pageNumbers)
     | None =>
         (* Strategy 1: PDF.js *)
         pdfPages <- attempt (extractViaPDFjs W document pageNumbers);;
         match pdfPages with
         | Some (p :: ps) => ret (p :: ps)
         | _ =>
             (* Strategy 2: pdf-parse *)
             match JS.or_else (url document) (file_url document) with
             | Some pdfUrl =>
                 if JS.truthy pdfUrl then
                   extractedPages <- attempt (extractRealPDFText W pdfUrl pageNumbers);;
                   match extractedPages with
                   | Some pages => ret pages
                   | None => ret (fallbackPDFExtraction "" pageNumbers)
                   end
                 else ret (fallbackPDFExtraction "" pageNumbers)
             (* Strategy 3: placeholder *)
             | None => ret (fallbackPDFExtraction "" pageNumbers)
             end
         end
     end)%M
    (ret (fallbackPDFExtraction "" pageNumbers)).

(** [clearCache]. *)
Definition clearCache : M Session unit :=
  fun s => (Ok tt, {| textCache := ∅; trace := trace s; console := console s |}).

(* --------------------------------------------------------------------- *)
(** ** The keyword fallback *)

(** One turn of [for (const word of queryWords)] on a page: the state is
    [(bestMatch, bestContext, matchScore)]. *)
Definition keywordStep (content pageText : string)
  (st : string * string * Z) (word : string) : string * string * Z :=
  let '(bestMatch, bestContext, matchScore) := st in
  let index := JS.indexOf pageText word in
  if index =? -1 then st
  else
    let start := Z.max 0 (index - 100) in
    let end_ := Z.min (JS.len content) (index + 300) in
    let chunk := JS.substring content start end_ in
    if JS.len bestMatch <? JS.len chunk then
      (chunk,
       JS.substring content (Z.max 0 (index - 200))
                    (Z.min (JS.len content) (index + 400)),
       matchScore + 1)
    else (bestMatch, bestContext, matchScore + 1).

Definition queryWordsOf (originalQuery : string) : list string :=
  filter (fun w => 3 <? JS.len w) (JS.split_space (JS.toLowerCase originalQuery)).

(** The two thresholds [matchScore >= queryWords.length * 0.7] and
    [matchScore >= queryWords.length * 0.3].  The doubles nearest to 0.7
    and 0.3 lie just below them, and the left-hand side is an integer, so
    each test holds exactly when the integer inequality below does. *)
Definition relevanceOf (matchScore keywords : Z) : Relevance :=
  if 7 * keywords <=? 10 * matchScore then high
  else if 3 * keywords <=? 10 * matchScore then medium
  else low.

Definition newline : ascii := ascii_of_N 10.
Definition full_stop : ascii := ascii_of_N 46.

(** [/^([A-Z][^.]{10,60})\n/]: after the capital, [k] characters other
    than a full stop, then a line feed. *)
Definition heading_ok (rest : string) (k : nat) : bool :=
  (10 <=? k)%nat && (k <=? 60)%nat
  && forallb (fun c => negb (Ascii.eqb c full_stop))
             (list_ascii_of_string (String.substring 0 k rest))
  && match String.get k rest with
     | Some c => Ascii.eqb c newline
     | None => false
     end.

(** The quantifier is greedy: the longest admissible [k] wins. *)
Fixpoint heading_search (rest : string) (k : nat) : option nat :=
  if heading_ok rest k then Some k
  else match k with
       | O => None
       | S k' => heading_search rest k'
       end.

(** The first captured group of the heading pattern, when it matches. *)
Definition headingMatch (content : string) : option string :=
  match content with
  | String c rest =>
      if JS.is_upper c then
        match heading_search rest 60 with
        | Some k => Some (String c (String.substring 0 k rest))
        | None => None
        end
      else None
  | EmptyString => None
  end.

(** The body of [for (const pt of pageTexts)]. *)
Definition fallbackSource (originalQuery : string) (pt : PageText) : PageReference :=
  let queryWords := queryWordsOf originalQuery in
  let pageText := JS.toLowerCase (content pt) in
  let '(bestMatch, bestContext, matchScore) :=
    fold_left (keywordStep (content pt) pageText) queryWords
              (EmptyString, EmptyString, 0) in
  let '(bestMatch, bestContext) :=
    if matchScore =? 0
    then (JS.substring (content pt) 0 300, JS.substring (content pt) 0 500)
    else (bestMatch, bestContext) in
  let section :=
    match headingMatch (content pt) with
    | Some heading => JS.trim heading
    | None => "Page " ++ JS.show (pnum pt)
    end in
  {| page := pnum pt;
     section := Some section;
     exactText := JS.trim bestMatch;
     relevance := relevanceOf matchScore (Z.of_nat (length queryWords));
     context := JS.trim bestContext;
     highlightURL := None |}.

Definition weight (r : Relevance) : Q :=
  match r with
  | high => 3 # 10
  | medium => 2 # 10
  | low => 1 # 10
  end.

(** [Math.min(0.8, x)]. *)
Definition cap (x : Q) : Q := if Qle_bool (8 # 10) x then 8 # 10 else x.

Definition createIntelligentFallback (originalQuery chatPDFResponse : string)
  (pageTexts : list PageText) : ExtractionResult :=
  let sources := map (fallbackSource originalQuery) pageTexts in
  {| sources := sources;
     confidence :=
       match sources with
       | [] => 3 # 10
       | _ => cap (fold_left (fun acc s => Qplus acc (weight (relevance s))) sources (0 # 1))
       end |}.

(* --------------------------------------------------------------------- *)
(** ** Citations *)

(** The Groq prompt carries at most 800 characters of each page. *)
Definition truncated (pt : PageText) : PageText :=
  {| pnum := pnum pt; content := JS.substring (content pt) 0 800 |}.

Definition findExactSources (W : World) (originalQuery chatPDFResponse : string)
  (pageTexts : list PageText) : M Session Reply :=
  (byOpenAI <-
     match openai W with
     | Some model =>
         attempt (call Ev_openai
                    (fun h => model h originalQuery chatPDFResponse pageTexts))
     | None => ret None
     end;;
   match byOpenAI with
   | Some result => ret result
   | None =>
       byGroq <-
         match groq W with
         | Some model =>
             attempt (call Ev_groq
                        (fun h => model h originalQuery chatPDFResponse
                                    (map truncated pageTexts)))
         | None => ret None
         end;;
       match byGroq with
       | Some result => ret result
       | None =>
           ret (Typed (createIntelligentFallback originalQuery chatPDFResponse pageTexts))
       end
   end)%M.

Definition emptyResult : ExtractionResult := {| sources := []; confidence := 0 # 1 |}.

Definition withHighlight (pdfUrl : string) (source : PageReference) : PageReference :=
  {| page := page source;
     section := section source;
     exactText := exactText source;
     relevance := relevance source;
     context := context source;
     highlightURL :=
       Some (PDFExtraction.generateHighlightURL pdfUrl (page source) (exactText source)) |}.

(** The page numbers [extractSources] starts from; [chatPDFReferences]
    holds the [pageNumber] of each reference the provider returned. *)
Definition referencedPages (chatPDFResponse : string)
  (chatPDFReferences : option (list Z)) : list JS.Number :=
  match chatPDFReferences with
  | Some (r :: rs) => map JS.Finite (r :: rs)
  | _ => parsePageReferences chatPDFResponse
  end.

(** The page range of [extractSources]: from one page before the lowest
    reference, but not below page 1, to one page after the highest.
    [None] stands for the [RangeError] in which the loop
    [for (let i = minPage; i <= maxPage; i++) expandedPages.push(i)] ends
    when it cannot build the range.  With [Infinity] among the references,
    or with [maxPage] at [2 ^ 53] or more, [i++] stops growing before [i]
    passes [maxPage], and the array grows until [push] fails; and an array
    holds [limit] elements at most, the limit of the engine, which the
    language caps at [2 ^ 32 - 1].  Below these bounds the arithmetic of
    the doubles is exact.  (The references are taken to be few enough to
    be spread into the arguments of [Math.min] and [Math.max].) *)
Definition expandedPages (limit : Z) (p : JS.Number) (ps : list JS.Number)
  : option (list Z) :=
  match fold_right JS.min p ps, fold_right JS.max p ps with
  | JS.Finite lowest, JS.Finite highest =>
      let minPage := Z.max 1 (lowest - 1) in
      let maxPage := highest + 1 in
      if (maxPage <? 2 ^ 53)
         && (maxPage - minPage + 1 <=? Z.max 0 (Z.min limit (2 ^ 32 - 1)))
      then Some (seqZ minPage (maxPage - minPage + 1))
      else None
  | _, _ => None
  end.

(** [extractSources].  The exact text of every source of the reply is
    read, by [generateHighlightURL] when the document has an address and
    by the log of the final result in any case: an untyped reply ends in
    a [TypeError]. *)
Definition extractSources (W : World) (originalQuery chatPDFResponse : string)
  (document : DocumentInfo) (chatPDFReferences : option (list Z))
  : M Session ExtractionResult :=
  try_catch
    (let pageNumbers := referencedPages chatPDFResponse chatPDFReferences in
     match pageNumbers with
     | [] => ret emptyResult
     | p :: ps =>
         match expandedPages (arrayLimit W) p ps with
         | None => throw
         | Some expandedPages =>
             pageTexts <- extractTextFromPages W document expandedPages;;
             reply <- findExactSources W originalQuery chatPDFResponse pageTexts;;
             match reply with
             | Untyped => throw
             | Typed result =>
                 match JS.or_else (url document) (file_url document) with
                 | Some pdfUrl =>
                     if JS.truthy pdfUrl then
                       ret {| sources := map (withHighlight pdfUrl) (sources result);
                              confidence := confidence result |}
                     else ret result
                 | None => ret result
                 end
             end
         end
     end)%M
    (ret emptyResult).

End SourceExtraction.

(* ===================================================================== *)
(** * PDFSourcesPanel: the order of the displayed citations *)
(* ===================================================================== *)

Module SourcesPanel.

Import SourceExtraction.

(** [PDFSource]: every field but the page is optional. *)
Record PDFSource : Type := {
  page : Z;
  section : option string;
  exactText : option string;
  relevance : option Relevance;
  context : option string
}.

(** [relevanceOrder[r || 'medium'] || 2]. *)
Definition relevanceOrder (r : option Relevance) : Z :=
  match r with
  | Some high => 3
  | Some medium => 2
  | Some low => 1
  | None => 2
  end.

(** The comparator handed to [sort]. *)
Definition compare (a b : PDFSource) : Z :=
  let aRelevance := relevanceOrder (relevance a) in
  let bRelevance := relevanceOrder (relevance b) in
  if negb (aRelevance =? bRelevance) then bRelevance - aRelevance
  else page a - page b.

(** [Array.prototype.sort] is a stable sort: with a comparator that is a
    consistent order its result is the one of a stable insertion sort, in
    which an element goes before the first one it does not follow. *)
Section Sort.

Context {A : Type} (cmp : A -> A -> Z).

Fixpoint insert (x : A) (l : list A) : list A :=
  match l with
  | [] => [x]
  | y :: l' => if cmp x y <=? 0 then x :: y :: l' else y :: insert x l'
  end.

Definition sort (l : list A) : list A := fold_right insert [] l.

End Sort.

Definition sortedSources (sources : list PDFSource) : list PDFSource :=
  sort compare sources.


(** [a] may stand before [b]: higher relevance first, then lower page. *)
Definition before (a b : PDFSource) : Prop :=
  relevanceOrder (relevance b) < relevanceOrder (relevance a)
  \/ (relevanceOrder (relevance a) = relevanceOrder (relevance b) /\ page a <= page b).

End SourcesPanel.

(* ===================================================================== *)
(** * AIServiceSwitcher *)
(* ===================================================================== *)

Module Switcher.

Inductive AIServiceType : Type := backend | chatpdf | anthropic | anthropic_mockup.

Definition AIServiceType_eqb (a b : AIServiceType) : bool :=
  match a, b with
  | backend, backend | chatpdf, chatpdf | anthropic, anthropic
  | anthropic_mockup, anthropic_mockup => true
  | _, _ => false
  end.

Definition validTypes : list string :=
  ["backend"; "chatpdf"; "anthropic"; "anthropic-mockup"].

(** The service a member of [validTypes] names. *)
Definition ofString (v : string) : option AIServiceType :=
  if String.eqb v "backend" then Some backend
  else if String.eqb v "chatpdf" then Some chatpdf
  else if String.eqb v "anthropic" then Some anthropic
  else if String.eqb v "anthropic-mockup" then Some anthropic_mockup
  else None.

Record DocumentInfo : Type := {
  id : string;
  document_name : option string;
  document_url : option string;
  file_url : option string
}.

Record QueryParams : Type := {
  message : string;
  documentId : string;
  documentData : DocumentInfo;
  userId : string;
  limit : option Z
}.

(** The argument of [backendService.query]. *)
Record BackendRequest : Type := {
  req_message : string;
  req_documentId : string;
  req_documentData : DocumentInfo;
  req_userId : string;
  req_limit : Z;
  forceService : option string
}.

(** [ClaudeCitationsResponse] and its parts. *)
Record ClaudeSource : Type := {
  source_content : string;
  chunk_index : JS.Number;
  document_index : Z
}.

Record Usage : Type := { input_tokens : Z; output_tokens : Z }.

Record ClaudeCitationsResponse : Type := {
  content : string;
  citations : list ClaudeSource;
  model : string;
  usage : Usage
}.

(** The calls that leave the switcher. *)
Inductive Call : Type :=
| Call_backend (req : BackendRequest)
| Call_claude (question : string) (document : SourceExtraction.DocumentInfo).

(** The calls made so far, and the warnings written so far (the value of
    the setting that was found invalid). *)
Record State : Type := {
  history : list Call;
  warned : list (option string)
}.

Definition initial : State := {| history := []; warned := [] |}.

(** A computation whose result and calls depend on the calls made so far
    only, not on the warnings written. *)
Definition history_only {A} (m : M State A) : Prop :=
  forall s s', history s = history s' ->
    (m s).1 = (m s').1 /\ history (m s).2 = history (m s').2.

Section Switcher.

(** The result type of the backend service, the unified response and the
    adapters of [aiResponseAdapter] are parameters. *)
Context {BackendResult UnifiedAIResponse : Type}.
Context (adaptBackendResponse : BackendResult -> UnifiedAIResponse).
Context (adaptChatPDFResponse : BackendResult -> string -> UnifiedAIResponse).
Context (adaptAnthropicResponse :
           ClaudeCitationsResponse -> string -> Z -> Z -> UnifiedAIResponse).
Context (createMockAnthropicResponse : string -> string -> string -> UnifiedAIResponse).

(** The configuration and the services behind the switcher; a service
    answers [None] when its call fails. *)
Record Env : Type := {
  VITE_AI_SERVICE : option string;
  backendService : list Call -> BackendRequest -> option BackendResult;
  claudeAvailable : bool;
  claudeService :
    list Call -> string -> SourceExtraction.DocumentInfo -> option ClaudeCitationsResponse
}.

(** The environment [E0] with another value of the setting. *)
Definition withSetting (v : option string) (E0 : Env) : Env :=
  {| VITE_AI_SERVICE := v;
     backendService := backendService E0;
     claudeAvailable := claudeAvailable E0;
     claudeService := claudeService E0 |}.

Context (E : Env).

Definition ask {A} (c : Call) (outcome : list Call -> option A) : M State A :=
  fun s =>
    let s' := {| history := history s ++ [c]; warned := warned s |} in
    match outcome (history s) with
    | Some a => (Ok a, s')
    | None => (Throw, s')
    end.

Definition getServiceType : M State AIServiceType :=
  fun s =>
    match VITE_AI_SERVICE E ≫= ofString with
    | Some serviceType => (Ok serviceType, s)
    | None =>
        (Ok anthropic,
         {| history := history s; warned := warned s ++ [VITE_AI_SERVICE E] |})
    end.

(** [params.limit || 5]. *)
Definition limitOf (params : QueryParams) : Z :=
  match limit params with
  | Some n => if n =? 0 then 5 else n
  | None => 5
  end.

Definition documentUrlOf (params : QueryParams) : string :=
  JS.or_default
    (JS.or_else (document_url (documentData params)) (file_url (documentData params)))
    "".

Definition request (params : QueryParams) (force : option string) : BackendRequest :=
  {| req_message := message params;
     req_documentId := documentId params;
     req_documentData := documentData params;
     req_userId := userId params;
     req_limit := limitOf params;
     forceService := force |}.

Definition queryBackend (params : QueryParams) : M State UnifiedAIResponse :=
  (result <- ask (Call_backend (request params None))
               (fun h => backendService E h (request params None));;
   ret (adaptBackendResponse result))%M.

Definition queryChatPDF (params : QueryParams) : M State UnifiedAIResponse :=
  (result <- ask (Call_backend (request params (Some "chatpdf")))
               (fun h => backendService E h (request params (Some "chatpdf")));;
   ret (adaptChatPDFResponse result (documentUrlOf params)))%M.

Definition claudeDocument (params : QueryParams) : SourceExtraction.DocumentInfo :=
  {| SourceExtraction.id := documentId params;
     SourceExtraction.name :=
       JS.or_default (document_name (documentData params)) "Document";
     SourceExtraction.url := document_url (documentData params);
     SourceExtraction.file_url := file_url (documentData params) |}.

Definition queryAnthropic (params : QueryParams) : M State UnifiedAIResponse :=
  if claudeAvailable E then
    (claudeResult <- ask (Call_claude (message params) (claudeDocument params))
                       (fun h => claudeService E h (message params) (claudeDocument params));;
     ret (adaptAnthropicResponse claudeResult (documentUrlOf params)
            (input_tokens (usage claudeResult))
            (output_tokens (usage claudeResult))))%M
  else throw.

Definition queryAnthropicMockup (params : QueryParams) : M State UnifiedAIResponse :=
  ret (createMockAnthropicResponse (message params)
         (JS.or_default (document_name (documentData params)) "Document")
         (documentUrlOf params)).

(** The [switch] of [query]. *)
Definition primary (serviceType : AIServiceType) (params : QueryParams)
  : M State UnifiedAIResponse :=
  match serviceType with
  | backend => queryBackend params
  | chatpdf => queryChatPDF params
  | anthropic => queryAnthropic params
  | anthropic_mockup => queryAnthropicMockup params
  end.

(** The [catch] block of [query]. *)
Definition fallbacks (serviceType : AIServiceType) (params : QueryParams)
  : M State UnifiedAIResponse :=
  (byAnthropic <-
     (if negb (AIServiceType_eqb serviceType anthropic)
      then attempt (queryAnthropic params)
      else ret None);;
   match byAnthropic with
   | Some response => ret response
   | None =>
       if negb (AIServiceType_eqb serviceType backend)
       then queryBackend params
       else throw
   end)%M.

(** [overrideService || this.getServiceType()]. *)
Definition selected (overrideService : option AIServiceType) : M State AIServiceType :=
  match overrideService with
  | Some serviceType => ret serviceType
  | None => getServiceType
  end.

Definition query (params : QueryParams) (overrideService : option AIServiceType)
  : M State UnifiedAIResponse :=
  (serviceType <- selected overrideService;;
   try_catch (primary serviceType params) (fallbacks serviceType params))%M.

End Switcher.

End Switcher.

(* ===================================================================== *)
(** * Concrete documents, services and configurations *)
(* ===================================================================== *)

Module Examples.

Import SourceExtraction.

(** A string of [n] zero digits. *)
Fixpoint zeros (n : nat) : string :=
  match n with
  | O => EmptyString
  | S n' => String "0" (zeros n')
  end.

(** An answer that cites the pages [ns] one after the other. *)
Fixpoint citing (ns : list positive) : string :=
  match ns with
  | [] => "."
  | n :: rest => " see [P" ++ JS.show (Zpos n) ++ "]" ++ citing rest
  end.

(** How many of the query words occur, as they are written, in the
    lower-cased text of a page. *)
Fixpoint keywordHits (pageText : string) (queryWords : list string) : Z :=
  match queryWords with
  | [] => 0
  | word :: rest =>
      (if JS.indexOf pageText word =? -1 then 0 else 1) + keywordHits pageText rest
  end.

Definition enrollmentQuestion : string := "what is the enrollment age limit".

Definition enrollmentPage : PageText :=
  {| pnum := 1;
     content := "Patients must be between 18 and 65 years old to enroll" |}.

(** A page number lies within a document of [numPages] pages. *)
Definition inRange (numPages pageNum : Z) : bool :=
  (1 <=? pageNum) && (pageNum <=? numPages).

(** A document of two pages that pdf.js loads from the address "u". *)
Definition twoPages : PDFExtraction.PDFDocumentProxy :=
  {| PDFExtraction.numPages := 2;
     PDFExtraction.readPage := fun n => Some ("text of page " ++ JS.show n) |}.

Definition loadsTwoPages : PDFExtraction.PdfJs :=
  fun _ address => if String.eqb address "u" then Some twoPages else None.

(** No pdf-parse, no text-matching model. *)
Definition offline : World :=
  {| arrayLimit := 2 ^ 32 - 1;
     pdfjs := loadsTwoPages;
     pdfParseModule := fun _ => false;
     pdfParse := fun _ _ => None;
     openai := None;
     groq := None |}.

Definition documentU : DocumentInfo :=
  {| id := "doc-1"; name := "Protocol"; url := Some "u"; file_url := None |}.

(** A document of three pages; only the second speaks of the question. *)
Definition threePages : PDFExtraction.PDFDocumentProxy :=
  {| PDFExtraction.numPages := 3;
     PDFExtraction.readPage := fun n =>
       Some (if n =? 2 then "The enrollment limit is 65 years" else "Study overview") |}.

Definition readsThreePages : World :=
  {| arrayLimit := 2 ^ 32 - 1;
     pdfjs := fun _ _ => Some threePages;
     pdfParseModule := fun _ => true;
     pdfParse := fun _ _ => None;
     openai := None;
     groq := None |}.

(** A model that finds nothing to quote and says so with confidence. *)
Definition findsNothing : World :=
  {| arrayLimit := 2 ^ 32 - 1;
     pdfjs := loadsTwoPages;
     pdfParseModule := fun _ => true;
     pdfParse := fun _ _ => None;
     openai := Some (fun _ _ _ _ => Some (Typed {| sources := []; confidence := 9 # 10 |}));
     groq := None |}.

(** Stand-ins for the adapters of the switcher: the unified response is a
    line of text that names the provider. *)
Definition adaptBackend (result : string) : string := "backend: " ++ result.
Definition adaptChatPDF (result documentUrl : string) : string := "chatpdf: " ++ result.
Definition adaptAnthropic (result : Switcher.ClaudeCitationsResponse)
  (documentUrl : string) (inputTokens outputTokens : Z) : string :=
  "anthropic: " ++ Switcher.content result.
Definition mockAnthropic (question documentName documentUrl : string) : string :=
  "mock-up".

Definition claudeReply : Switcher.ClaudeCitationsResponse :=
  {| Switcher.content := "Adults of 18 to 65 years.";
     Switcher.citations := [];
     Switcher.model := "claude";
     Switcher.usage := {| Switcher.input_tokens := 3210; Switcher.output_tokens := 312 |} |}.

(** ChatPDF is configured, the backend service is down, Claude answers. *)
Definition backendDown : Switcher.Env :=
  {| Switcher.VITE_AI_SERVICE := Some "chatpdf";
     Switcher.backendService := fun _ _ => @None string;
     Switcher.claudeAvailable := true;
     Switcher.claudeService := fun _ _ _ => Some claudeReply |}.

(** Claude is configured and has no API key, the backend service answers. *)
Definition claudeWithoutKey : Switcher.Env :=
  {| Switcher.VITE_AI_SERVICE := Some "anthropic";
     Switcher.backendService := fun _ _ => Some "18 to 65";
     Switcher.claudeAvailable := false;
     Switcher.claudeService := fun _ _ _ => None |}.

(** The setting names a service the switcher does not know. *)
Definition unknownSetting : Switcher.Env :=
  {| Switcher.VITE_AI_SERVICE := Some "openai";
     Switcher.backendService := fun _ _ => Some "18 to 65";
     Switcher.claudeAvailable := true;
     Switcher.claudeService := fun _ _ _ => Some claudeReply |}.

Definition ageQuery : Switcher.QueryParams :=
  {| Switcher.message := "what is the enrollment age limit";
     Switcher.documentId := "doc-1";
     Switcher.documentData :=
       {| Switcher.id := "doc-1";
          Switcher.document_name := Some "Protocol";
          Switcher.document_url := Some "u";
          Switcher.file_url := None |};
     Switcher.userId := "user-1";
     Switcher.limit := None |}.


End Examples.

(* ===================================================================== *)
(** * Further parts of the services *)
(* ===================================================================== *)

(** A regular expression with the [g] flag, run over a string: the string
    is tried position by position; [matcher] says whether the pattern
    matches at the head of what is left, with what capture and over how
    many characters, and after a match the search resumes behind it. *)
Fixpoint scan {A : Type} (matcher : string -> option (A * nat)) (skip : nat)
  (s : string) : list A :=
  match s with
  | EmptyString => []
  | String _ rest =>
      match skip with
      | S k => scan matcher k rest
      | O =>
          match matcher s with
          | Some (a, n) => a :: scan matcher (n - 1) rest
          | None => scan matcher 0 rest
          end
      end
  end.

(** The longest run of characters passing [P] at the head of [s], and
    what follows it. *)
Fixpoint span (P : ascii -> bool) (s : string) : string * string :=
  match s with
  | String c r =>
      if P c then let (run, rest) := span P r in (String c run, rest)
      else (EmptyString, s)
  | EmptyString => (EmptyString, EmptyString)
  end.

(** [x] stands in [s] as it is written. *)
Definition occurs_in (x s : string) : Prop :=
  exists before after, s = (before ++ x ++ after)%string.

Module Pipeline.

Import SourceExtraction.

(** A reference from which the page range can always be built: a page
    number below the number of elements an array can hold. *)
Definition small (limit : Z) (r : JS.Number) : Prop :=
  exists z, r = JS.Finite z /\ z < limit /\ z < 2 ^ 32 - 1.

(** A reference from which the page range cannot be built: [Infinity],
    or a page number from [2 ^ 53 - 1] on. *)
Definition unsafe (r : JS.Number) : Prop :=
  r = JS.Infinity \/ exists z, r = JS.Finite z /\ 2 ^ 53 - 1 <= z.

(** The address of the document, when it has one. *)
Definition pdfUrlOf (document : DocumentInfo) : option string :=
  match JS.or_else (url document) (file_url document) with
  | Some pdfUrl => if JS.truthy pdfUrl then Some pdfUrl else None
  | None => None
  end.

(** What the keyword loop keeps true of its best excerpt and its best
    context: each stands in the page as it is written, within 400 and 600
    characters. *)
Definition excerpts_within (content : string) (st : string * string * Z) : Prop :=
  occurs_in st.1.1 content /\ JS.len st.1.1 <= 400
  /\ occurs_in st.1.2 content /\ JS.len st.1.2 <= 600.

(** A citation of the keyword fallback for the page [pt]. *)
Definition cites (source : PageReference) (pt : PageText) : Prop :=
  page source = pnum pt
  /\ occurs_in (exactText source) (content pt) /\ JS.len (exactText source) <= 400
  /\ occurs_in (context source) (content pt) /\ JS.len (context source) <= 600.

(** The text pdf-parse could not give for a page. *)
Definition notAvailable (pageNum : Z) : string :=
  "Page " ++ JS.show pageNum ++ " content not available".

(** A document without address. *)
Definition noAddress : DocumentInfo :=
  {| id := "doc-2"; name := "Draft"; url := None; file_url := Some EmptyString |}.

(** The last step of [extractSources]: a highlight link on every source
    when the document has an address. *)
Definition attachLinks (document : DocumentInfo) (result : ExtractionResult)
  : ExtractionResult :=
  match JS.or_else (url document) (file_url document) with
  | Some pdfUrl =>
      if JS.truthy pdfUrl then
        {| sources := map (withHighlight pdfUrl) (sources result);
           confidence := confidence result |}
      else result
  | None => result
  end.

(** The character is no opening bracket. *)
Definition no_bracket (c : ascii) : bool := negb (Ascii.eqb c "[").

(** The call a configured model receives, none for a model without key. *)
Definition asked (model : option Matcher) (e : Event) : list Event :=
  match model with
  | Some _ => [e]
  | None => []
  end.

(** The model is configured and answers [reply] after the calls [h]. *)
Definition answers (model : option Matcher) (h : list Event)
  (originalQuery chatPDFResponse : string) (pageTexts : list PageText)
  (reply : Reply) : Prop :=
  exists m, model = Some m /\ m h originalQuery chatPDFResponse pageTexts = Some reply.

(** The model is not configured, or fails after the calls [h]. *)
Definition silent (model : option Matcher) (h : list Event)
  (originalQuery chatPDFResponse : string) (pageTexts : list PageText) : Prop :=
  match model with
  | Some m => m h originalQuery chatPDFResponse pageTexts = None
  | None => True
  end.

(** The citation carries the highlight link of its own page and text. *)
Definition linked (pdfUrl : string) (source : PageReference) : Prop :=
  highlightURL source
  = Some (PDFExtraction.generateHighlightURL pdfUrl (page source) (exactText source)).

End Pipeline.

(* --------------------------------------------------------------------- *)
(** ** Counting the calls of the switcher *)

Module Calls.

Import Switcher.

Definition is_claude (c : Call) : bool :=
  match c with Call_claude _ _ => true | Call_backend _ => false end.

Definition is_backend (c : Call) : bool :=
  match c with Call_backend _ => true | Call_claude _ _ => false end.

(** How many of the calls pass the test. *)
Definition count (test : Call -> bool) (calls : list Call) : nat :=
  length (List.filter test calls).

(** ChatPDF is configured and every service is down. *)
Definition allDown : Env :=
  {| VITE_AI_SERVICE := Some "chatpdf";
     backendService := fun _ _ => @None string;
     claudeAvailable := true;
     claudeService := fun _ _ _ => None |}.

End Calls.

(* --------------------------------------------------------------------- *)
(** ** PDFExtractionService.findMatchingText *)

Module PDFMatching.

Record TextMatch : Type := {
  pageNumber : Z;
  matchedText : string;
  context : string;
  confidence : Q
}.

Definition wordsOf (searchQuery : string) : list string :=
  filter (fun w => 2 <? JS.len w) (JS.split_space (JS.toLowerCase searchQuery)).

(** One turn of [for (const word of words)]: the state is
    [(totalMatches, bestMatch, bestContext)].  The bounds
    [index - contextLength / 2] and [index + word.length + contextLength / 2]
    may be halves; [substring] drops the fraction, which for an integer
    [contextLength] is the integer division below. *)
Definition matchStep (pageText lowerText : string) (contextLength : Z)
  (st : Z * string * string) (word : string) : Z * string * string :=
  let '(totalMatches, bestMatch, bestContext) := st in
  let index := JS.indexOf lowerText word in
  if index =? -1 then st
  else
    let start := Z.max 0 ((2 * index - contextLength) / 2) in
    let end_ := Z.min (JS.len pageText)
                      ((2 * (index + JS.len word) + contextLength) / 2) in
    let context := JS.substring pageText start end_ in
    if JS.len bestContext <? JS.len context then
      (totalMatches + 1, JS.substring pageText index (index + JS.len word), context)
    else (totalMatches + 1, bestMatch, bestContext).

(** The body of [for (const page of pages)]: the result pushed for the
    page, if any.  The confidence [totalMatches / words.length] is the
    rational number; a quotient of two small integers and its double are
    ordered alike. *)
Definition pageMatch (searchQuery : string) (contextLength : Z)
  (page : PDFExtraction.PDFPage) : option TextMatch :=
  let words := wordsOf searchQuery in
  let '(totalMatches, bestMatch, bestContext) :=
    fold_left (matchStep (PDFExtraction.text page)
                         (JS.toLowerCase (PDFExtraction.text page)) contextLength)
              words (0, EmptyString, EmptyString) in
  if 0 <? totalMatches then
    Some {| pageNumber := PDFExtraction.pageNumber page;
            matchedText := bestMatch;
            context := bestContext;
            confidence := Qmake totalMatches (Z.to_pos (Z.of_nat (length words))) |}
  else None.

(** The comparator [(a, b) => b.confidence - a.confidence], by its sign. *)
Definition byConfidence (a b : TextMatch) : Z :=
  match Qcompare (confidence b) (confidence a) with
  | Lt => -1
  | Eq => 0
  | Gt => 1
  end.

Definition findMatchingText (pages : list PDFExtraction.PDFPage)
  (searchQuery : string) (contextLength : Z) : list TextMatch :=
  SourcesPanel.sort byConfidence (omap (pageMatch searchQuery contextLength) pages).

(** The page holds at least one of the words of the query. *)
Definition mentions (searchQuery : string) (page : PDFExtraction.PDFPage) : bool :=
  existsb (fun word =>
             negb (JS.indexOf (JS.toLowerCase (PDFExtraction.text page)) word =? -1))
          (wordsOf searchQuery).

(** What the word loop keeps true of its state on a page when the
    context length is not negative: nothing found and nothing kept so far,
    or a context that is not empty and a matched text that, lower-cased,
    is one of the words. *)
Definition found_word (words : list string) (st : Z * string * string) : Prop :=
  (st.1.1 = 0 /\ st.1.2 = EmptyString /\ st.2 = EmptyString)
  \/ (0 < st.1.1 /\ 0 < JS.len st.2 /\ JS.toLowerCase st.1.2 ∈ words).

(** The match [r] reports the page [page] for the query. *)
Definition reports (searchQuery : string) (contextLength : Z)
  (page : PDFExtraction.PDFPage) (r : TextMatch) : Prop :=
  pageNumber r = PDFExtraction.pageNumber page
  /\ (0 < confidence r <= 1)%Q
  /\ occurs_in (matchedText r) (PDFExtraction.text page)
  /\ occurs_in (context r) (PDFExtraction.text page)
  /\ (0 <= contextLength -> JS.toLowerCase (matchedText r) ∈ wordsOf searchQuery).

(** Three pages, two of which speak of enrollment. *)
Definition samplePages : list PDFExtraction.PDFPage :=
  [ {| PDFExtraction.pageNumber := 1; PDFExtraction.text := "Nothing here" |};
    {| PDFExtraction.pageNumber := 2; PDFExtraction.text := "The Enrollment limit is 65" |};
    {| PDFExtraction.pageNumber := 3; PDFExtraction.text := "Enrollment and age limit for all" |} ].

Definition sampleMatch : TextMatch :=
  {| pageNumber := 2;
     matchedText := "Enrollment";
     context := "The Enrollment limi";
     confidence := 2 # 3 |}.

(** [a] may stand before [b]: its confidence is not the lower one. *)
Definition not_below (a b : TextMatch) : Prop := (confidence b <= confidence a)%Q.

End PDFMatching.

(* --------------------------------------------------------------------- *)
(** ** ClaudeCitationsService: citations read from the answer *)

Module ClaudeCitations.

Import Switcher.

Definition single_quote : ascii := ascii_of_N 39.
Definition double_quote : ascii := ascii_of_N 34.

(** The class of the two quote characters, single and double. *)
Definition is_quote (c : ascii) : bool :=
  Ascii.eqb c single_quote || Ascii.eqb c double_quote.

(** A match of the page pattern at the head of [s]: an opening bracket,
    the word Page, a space, digits (the first group), a colon, a space, a
    quote character, one or more characters that are no quote characters
    (the second group), a quote character and the closing bracket.  The
    result holds the two groups and the length of the whole match. *)
Definition match_page (s : string) : option (string * string * nat) :=
  if String.prefix "[Page " s then
    match SourceExtraction.span_digits (JS.drop 6 s) with
    | (String d ds, String c1 (String c2 (String q1 r))) =>
        if Ascii.eqb c1 ":" && Ascii.eqb c2 " " && is_quote q1 then
          match span (fun c => negb (is_quote c)) r with
          | (String x xs, String q2 (String c3 _)) =>
              if is_quote q2 && Ascii.eqb c3 "]" then
                Some (String d ds, String x xs,
                      (6 + String.length (String d ds) + 3
                       + String.length (String x xs) + 2)%nat)
              else None
          | _ => None
          end
        else None
    | _ => None
    end
  else None.

(** A match of [/'([^']{20,})'/] at the head of [s]. *)
Definition match_quoted (s : string) : option (string * nat) :=
  match s with
  | String q r =>
      if Ascii.eqb q single_quote then
        match span (fun c => negb (Ascii.eqb c single_quote)) r with
        | (run, String _ _) =>
            if (20 <=? String.length run)%nat
            then Some (run, (String.length run + 2)%nat)
            else None
        | _ => None
        end
      else None
  | EmptyString => None
  end.

(** A citation of the response metadata, every field of which may miss. *)
Record RawCitation : Type := {
  raw_content : option string;
  raw_text : option string;
  raw_chunk_index : option Z;
  raw_document_index : option Z
}.

(** [n || 0]. *)
Definition or_zero (n : option Z) : Z :=
  match n with Some k => k | None => 0 end.

Definition ofRaw (citation : RawCitation) : ClaudeSource :=
  {| source_content :=
       JS.or_default (JS.or_else (raw_content citation) (raw_text citation)) "";
     chunk_index := JS.Finite (or_zero (raw_chunk_index citation));
     document_index := or_zero (raw_document_index citation) |}.

Definition pageCitation (m : string * string) : ClaudeSource :=
  {| source_content := m.2; chunk_index := JS.parseInt m.1; document_index := 0 |}.

Definition quoteCitation (quote : string) : ClaudeSource :=
  {| source_content := quote; chunk_index := JS.Finite 0; document_index := 0 |}.

(** The citations read from the text of the answer: the page-tagged
    quotes, or, when there is none, the first three quoted passages. *)
Definition parsedCitations (content : string) : list ClaudeSource :=
  match scan match_page 0 content with
  | m :: ms => map pageCitation (m :: ms)
  | [] => map quoteCitation (take 3 (scan match_quoted 0 content))
  end.

(** The citations of [queryDocumentWithCitations]: those of the response
    metadata when the first block is text and the response has some, else
    those read from the text. *)
Definition citationsOf (firstType : option string) (content : string)
  (responseCitations : option (list RawCitation)) : list ClaudeSource :=
  let fromResponse :=
    match firstType, responseCitations with
    | Some type, Some raw => if String.eqb type "text" then map ofRaw raw else []
    | _, _ => []
    end in
  match fromResponse with
  | _ :: _ => fromResponse
  | [] => parsedCitations content
  end.

(** An answer in the format asked of the model: the passages [quotes],
    each quoted with its page after some text of its own, and [tail]
    after the last. *)
Fixpoint quoting (quotes : list (string * positive * string)) (tail : string) : string :=
  match quotes with
  | [] => tail
  | (lead, n, quote) :: rest =>
      lead ++ "[Page " ++ JS.show (Zpos n) ++ ": '" ++ quote ++ "']"
           ++ quoting rest tail
  end.

(** Text without opening bracket. *)
Definition plain (text : string) : Prop := JS.all_chars Pipeline.no_bracket text.

(** A passage that can stand between quotes: not empty, no quote in it. *)
Definition quotable (quote : string) : Prop :=
  quote <> EmptyString /\ JS.all_chars (fun c => negb (is_quote c)) quote.

(** A quoted passage the answer can carry: text without bracket before
    it, a page number below [2 ^ 53], where [parseInt] is exact, and a
    passage that can stand between quotes. *)
Definition well_quoted (q : string * positive * string) : Prop :=
  plain q.1.1 /\ Zpos q.1.2 < 2 ^ 53 /\ quotable q.2.

(** The citation of a quoted passage. *)
Definition cited (q : string * positive * string) : ClaudeSource :=
  {| source_content := q.2; chunk_index := JS.Finite (Zpos q.1.2); document_index := 0 |}.

(** A citation read from the text [content] of the answer. *)
Definition from_answer (content : string) (c : ClaudeSource) : Prop :=
  document_index c = 0 /\ JS.nonnegative (chunk_index c)
  /\ 0 < JS.len (source_content c)
  /\ occurs_in (source_content c) content.

(** A citation without page. *)
Definition unpaged (c : ClaudeSource) : Prop :=
  chunk_index c = JS.Finite 0 /\ 20 <= JS.len (source_content c).

(** An answer with two quoted passages. *)
Definition twoQuotes : list (string * positive * string) :=
  [ ("The limit is stated: ", 12%positive, "Patients must be 18 to 65");
    (" and again ", 3%positive, "no upper limit (see 4.1)") ].

End ClaudeCitations.

(* ===================================================================== *)
(** * The page-reference parser *)
(* ===================================================================== *)

Section ParserFacts.

Import SourceExtraction.

Lemma append_cons (c : ascii) (a b : string) :
  (String c a ++ b)%string = String c (a ++ b).
Proof. reflexivity. Qed.

Lemma length_append (a b : string) :
  String.length (a ++ b) = (String.length a + String.length b)%nat.
Proof.
  induction a as [|c a IH]; [reflexivity|].
  rewrite append_cons. cbn [String.length]. now rewrite IH.
Qed.

Lemma append_assoc (a b c : string) : ((a ++ b) ++ c = a ++ (b ++ c))%string.
Proof.
  induction a as [|x a IH]; [reflexivity|].
  rewrite !append_cons. now rewrite IH.
Qed.

Lemma digit_value_bounds c : JS.is_digit c = true -> 0 <= JS.digit_value c <= 9.
Proof.
  unfold JS.is_digit, JS.in_range, JS.digit_value. intros H.
  apply andb_prop in H as [H1 H2].
  apply N.leb_le in H1. apply N.leb_le in H2. lia.
Qed.

Lemma mathInt_from_nonneg (cs : list ascii) (acc : Z) :
  Forall (fun c => JS.is_digit c = true) cs -> 0 <= acc ->
  0 <= fold_left (fun a c => 10 * a + JS.digit_value c) cs acc.
Proof.
  intros H. revert acc. induction H as [|c cs Hc _ IH]; intros acc Hacc; simpl.
  - exact Hacc.
  - apply IH. pose proof (digit_value_bounds c Hc). lia.
Qed.

Lemma mathInt_nonneg ds : all_digits ds -> 0 <= JS.mathInt ds.
Proof. intros H. unfold JS.mathInt. apply mathInt_from_nonneg; [exact H | lia]. Qed.

Lemma span_digits_spec s :
  all_digits (span_digits s).1 /\ s = ((span_digits s).1 ++ (span_digits s).2)%string.
Proof.
  induction s as [|c r IH]; simpl.
  - split; [constructor | reflexivity].
  - destruct (JS.is_digit c) eqn:Hc.
    + destruct (span_digits r) as [ds rest]. simpl in *. destruct IH as [IH1 IH2].
      split; [constructor; assumption | now rewrite IH2 at 1].
    + split; [constructor | reflexivity].
Qed.

Lemma match_marker_digits s ds n : match_marker s = Some (ds, n) -> all_digits ds.
Proof.
  unfold match_marker. intros H.
  destruct s as [|c0 [|c1 r]]; try discriminate.
  destruct (Ascii.eqb c0 "[" && Ascii.eqb c1 "P"); [|discriminate].
  pose proof (span_digits_spec r) as [Hd _].
  destruct (span_digits r) as [[|d ds'] [|c2 rest']]; try discriminate.
  destruct (Ascii.eqb c2 "]"); [|discriminate].
  injection H as <- _. exact Hd.
Qed.

Lemma matchAll_from_digits s : forall skip, Forall all_digits (matchAll_from skip s).
Proof.
  induction s as [|c r IH]; intros skip; cbn [matchAll_from].
  - constructor.
  - destruct skip as [|k]; [|apply IH].
    destruct (match_marker (String c r)) as [[ds n]|] eqn:Hm; [|apply IH].
    constructor; [eapply match_marker_digits; eassumption | apply IH].
Qed.

(** Behind a match the scan resumes at the first character after it. *)
Lemma matchAll_from_skip (a b : string) :
  matchAll_from (String.length a) (a ++ b) = matchAll_from 0 b.
Proof. induction a as [|c a IH]; simpl; [reflexivity | exact IH]. Qed.

Lemma span_digits_app ds rest :
  all_digits ds ->
  match rest with String c _ => JS.is_digit c = false | EmptyString => True end ->
  span_digits (ds ++ rest) = (ds, rest).
Proof.
  intros Hd Hr. induction ds as [|c ds IH]; simpl.
  - destruct rest as [|c r]; simpl; [reflexivity | now rewrite Hr].
  - inversion Hd as [|? ? Hc Hds]; subst. rewrite Hc, (IH Hds). reflexivity.
Qed.

Lemma match_marker_marker d ds rest :
  all_digits (String d ds) ->
  match_marker (String "[" (String "P" (String d ds ++ String "]" rest)))
  = Some (String d ds, (3 + String.length (String d ds))%nat).
Proof.
  intros Hd. unfold match_marker.
  rewrite (span_digits_app (String d ds) (String "]" rest) Hd eq_refl).
  reflexivity.
Qed.

Lemma matchAll_from_match c r ds n :
  match_marker (String c r) = Some (ds, n) ->
  matchAll_from 0 (String c r) = ds :: matchAll_from (n - 1) r.
Proof. intros H. cbn [matchAll_from]. now rewrite H. Qed.

Lemma matchAll_from_no_match c r :
  match_marker (String c r) = None ->
  matchAll_from 0 (String c r) = matchAll_from 0 r.
Proof. intros H. cbn [matchAll_from]. now rewrite H. Qed.

(** A marker at the head of the text is the first match, and the scan goes
    on with what follows its closing bracket. *)
Lemma matchAll_marker d ds rest :
  all_digits (String d ds) ->
  matchAll ("[P" ++ String d ds ++ "]" ++ rest) = String d ds :: matchAll rest.
Proof.
  intros Hd. unfold matchAll.
  change ("[P" ++ String d ds ++ "]" ++ rest)%string
    with (String "[" (String "P" (String d ds ++ String "]" rest))).
  rewrite (matchAll_from_match _ _ _ _ (match_marker_marker d ds rest Hd)).
  f_equal.
  replace (String "P" (String d ds ++ String "]" rest))
    with (("P" ++ String d ds ++ "]") ++ rest)%string.
  - replace (3 + String.length (String d ds) - 1)%nat
      with (String.length ("P" ++ String d ds ++ "]")%string).
    + exact (matchAll_from_skip ("P" ++ String d ds ++ "]") rest).
    + rewrite !length_append. cbn [String.length]. lia.
  - rewrite !append_assoc. reflexivity.
Qed.

Lemma all_digits_zeros n : all_digits (Examples.zeros n).
Proof. induction n; simpl; constructor; [reflexivity | assumption]. Qed.

Lemma mathInt_from_zeros n :
  fold_left (fun a c => 10 * a + JS.digit_value c)
            (list_ascii_of_string (Examples.zeros n)) 0 = 0.
Proof. induction n; simpl; [reflexivity | exact IHn]. Qed.

Lemma all_digits_string_of_uint d : all_digits (NilEmpty.string_of_uint d).
Proof. induction d; constructor; solve [reflexivity | assumption]. Qed.

Lemma mathInt_of_uint_acc d :
  forall acc,
    fold_left (fun a c => 10 * a + JS.digit_value c)
              (list_ascii_of_string (NilEmpty.string_of_uint d)) (Zpos acc)
    = Zpos (Pos.of_uint_acc d acc).
Proof.
  induction d; intros acc;
    cbn [NilEmpty.string_of_uint list_ascii_of_string fold_left Pos.of_uint_acc];
    [reflexivity | rewrite <- IHd; f_equal; vm_compute JS.digit_value; lia ..].
Qed.

Lemma mathInt_of_uint d :
  JS.mathInt (NilEmpty.string_of_uint d) = Z.of_N (Pos.of_uint d).
Proof.
  unfold JS.mathInt.
  induction d;
    cbn [NilEmpty.string_of_uint list_ascii_of_string fold_left Pos.of_uint];
    [reflexivity | exact IHd | apply (mathInt_of_uint_acc d) ..].
Qed.

(** The decimal writing of a positive number: digits, at least one, and
    the digits denote the number. *)
Lemma show_positive p :
  exists d ds,
    JS.show (Zpos p) = String d ds
    /\ all_digits (String d ds)
    /\ JS.mathInt (String d ds) = Zpos p.
Proof.
  unfold JS.show. cbn [Z.to_int NilZero.string_of_int].
  pose proof (DecimalPos.Unsigned.to_uint_nonnil p) as Hnil.
  pose proof (DecimalPos.Unsigned.of_to p) as Hback.
  pose proof (all_digits_string_of_uint (Pos.to_uint p)) as Hdigits.
  pose proof (mathInt_of_uint (Pos.to_uint p)) as Hparse.
  rewrite Hback in Hparse. cbn [Z.of_N] in Hparse.
  destruct (Pos.to_uint p) as [|u|u|u|u|u|u|u|u|u|u]; [congruence|..];
    (eexists; eexists; split; [reflexivity | split; [exact Hdigits | exact Hparse]]).
Qed.

(** A character other than the opening bracket starts no marker. *)
Lemma matchAll_other c r :
  Ascii.eqb c "[" = false -> matchAll (String c r) = matchAll r.
Proof.
  intros Hc. unfold matchAll. apply matchAll_from_no_match.
  unfold match_marker. destruct r; [reflexivity|]. now rewrite Hc.
Qed.

(** Below [2 ^ 53] every integer is a double. *)
Lemma nearest_exact z : z < 2 ^ 53 -> JS.nearest z = z.
Proof.
  intros Hz. unfold JS.nearest.
  destruct (Z.leb_spec (Z.log2 z - 52) 0) as [_ | He]; [reflexivity|].
  exfalso. destruct (Z.le_gt_cases z 0) as [Hneg | Hpos].
  - rewrite (Z.log2_nonpos z Hneg) in He. lia.
  - apply (Z.log2_lt_pow2 z 53 Hpos) in Hz. lia.
Qed.

Lemma toNumber_exact z : z < 2 ^ 53 -> JS.toNumber z = JS.Finite z.
Proof.
  intros Hz. unfold JS.toNumber. rewrite (nearest_exact z Hz).
  destruct (Z.leb_spec (2 ^ 1024) z) as [Hbig | _]; [|reflexivity].
  exfalso. assert (2 ^ 53 < 2 ^ 1024) by (apply Z.pow_lt_mono_r; lia). lia.
Qed.

Lemma nearest_nonneg z : 0 <= z -> 0 <= JS.nearest z.
Proof.
  intros Hz. unfold JS.nearest.
  destruct (Z.leb_spec (Z.log2 z - 52) 0) as [_ | He]; [exact Hz|].
  assert (Hulp : 0 < 2 ^ (Z.log2 z - 52)) by (apply Z.pow_pos_nonneg; lia).
  pose proof (Z.div_pos z _ Hz Hulp) as Hq.
  destruct (_ || _); nia.
Qed.

(** Rounding at most doubles the integer. *)
Lemma nearest_upper z : 0 <= z -> JS.nearest z <= 2 * z.
Proof.
  intros Hz. unfold JS.nearest.
  destruct (Z.leb_spec (Z.log2 z - 52) 0) as [_ | He]; [lia|].
  assert (Hpos : 0 < z).
  { destruct (Z.eq_dec z 0) as [-> | Hne]; [|lia]. cbn in He. lia. }
  assert (Hulp : 0 < 2 ^ (Z.log2 z - 52)) by (apply Z.pow_pos_nonneg; lia).
  assert (Hle : 2 ^ (Z.log2 z - 52) <= z).
  { transitivity (2 ^ Z.log2 z).
    - apply Z.pow_le_mono_r; lia.
    - apply Z.log2_spec, Hpos. }
  pose proof (Z.div_mod z (2 ^ (Z.log2 z - 52)) ltac:(lia)) as Hdm.
  pose proof (Z.mod_pos_bound z (2 ^ (Z.log2 z - 52)) Hulp) as Hr.
  destruct (_ || _); nia.
Qed.

(** The number value of an integer that is not negative is not negative,
    and it is an integer when the integer is below [2 ^ 1023]. *)
Lemma toNumber_nonnegative z : 0 <= z -> JS.nonnegative (JS.toNumber z).
Proof.
  intros Hz. unfold JS.toNumber.
  destruct (2 ^ 1024 <=? JS.nearest z); [exact I | now apply nearest_nonneg].
Qed.

Lemma toNumber_integer z : 0 <= z < 2 ^ 1023 -> JS.is_integer (JS.toNumber z).
Proof.
  intros [Hz Hbound]. unfold JS.toNumber.
  destruct (Z.leb_spec (2 ^ 1024) (JS.nearest z)) as [Hbig | _]; [|exact I].
  pose proof (nearest_upper z Hz) as Hup.
  assert (Hpow : 2 ^ 1024 = 2 * 2 ^ 1023)
    by (change 1024 with (Z.succ 1023); apply Z.pow_succ_r; lia).
  lia.
Qed.

Lemma parseInt_nonnegative ds : all_digits ds -> JS.nonnegative (JS.parseInt ds).
Proof. intros Hds. apply toNumber_nonnegative, mathInt_nonneg, Hds. Qed.

Lemma truthy_positive n : JS.nonnegative n -> JS.truthy_number n -> JS.positive n.
Proof.
  destruct n as [z|]; cbn; [|trivial].
  intros Hz Hnz. destruct (Z.eqb_spec z 0); [contradiction | lia].
Qed.

Lemma parsePageReferences_citing ns :
  Forall (fun n => Zpos n < 2 ^ 53) ns ->
  parsePageReferences (Examples.citing ns) = map (fun n => JS.Finite (Zpos n)) ns.
Proof.
  unfold parsePageReferences.
  induction 1 as [|n rest Hn _ IH]; [reflexivity|].
  cbn [Examples.citing map].
  destruct (show_positive n) as [d [ds [Hshow [Hdigits Hparse]]]].
  rewrite Hshow.
  change (" see [P" ++ String d ds ++ "]" ++ Examples.citing rest)%string
    with (String " " (String "s" (String "e" (String "e" (String " "
            ("[P" ++ String d ds ++ "]" ++ Examples.citing rest)))))).
  rewrite !matchAll_other by reflexivity.
  rewrite (matchAll_marker d ds (Examples.citing rest) Hdigits).
  cbn [map]. unfold JS.parseInt at 1. rewrite Hparse, (toNumber_exact _ Hn).
  rewrite filter_cons_True by exact I.
  now rewrite IH.
Qed.

(** A marker at the head of the answer gives the number [parseInt] reads
    from its digits, unless that is zero, and the parser goes on behind
    the marker. *)
Lemma parsePageReferences_marker d ds rest :
  all_digits (String d ds) ->
  parsePageReferences ("[P" ++ String d ds ++ "]" ++ rest)
  = ((if JS.truthy_number (JS.parseInt (String d ds))
      then [JS.parseInt (String d ds)] else []) ++ parsePageReferences rest)%list.
Proof.
  intros Hdigits. unfold parsePageReferences.
  rewrite (matchAll_marker d ds rest Hdigits). cbn [map].
  destruct (JS.truthy_number (JS.parseInt (String d ds))) eqn:Htruthy.
  - rewrite filter_cons_True by (rewrite Htruthy; exact I). reflexivity.
  - rewrite filter_cons_False by (rewrite Htruthy; exact (fun H => H)). reflexivity.
Qed.

(** C7.  On the answer "See [P3] and [P7] for details [P3]" the parser
    returns the page numbers 3, 7, 3: the markers in the order of the
    text, the repeated one twice.  So it is for every list of positive
    page numbers below 2^53 (the numbers a double holds exactly) cited one
    after the other: the parser returns the list as it was cited, nothing
    reordered and nothing dropped. *)
Theorem parsePageReferences_order_and_repetition :
  parsePageReferences "See [P3] and [P7] for details [P3]"
  = [JS.Finite 3; JS.Finite 7; JS.Finite 3]
  /\ (forall ns,
        Forall (fun n => Zpos n < 2 ^ 53) ns ->
        parsePageReferences (Examples.citing ns) = map (fun n => JS.Finite (Zpos n)) ns).
Proof. split; [reflexivity | exact parsePageReferences_citing]. Qed.

(** C10, as the code has it.  Whatever the answer, every number the
    parser returns is strictly positive; a marker whose number is zero,
    [P0] or any run of zeros, adds nothing to the result.  The number of a
    marker is the integer its digits denote when that is below 2^53 and an
    integer, the nearest double, when it is below 2^1023. *)
Theorem parsePageReferences_positive :
  (forall response, Forall JS.positive (parsePageReferences response))
  /\ parsePageReferences "[P0]" = []
  /\ (forall k rest,
        parsePageReferences ("[P" ++ Examples.zeros (S k) ++ "]" ++ rest)
        = parsePageReferences rest)
  /\ (forall d ds rest,
        all_digits (String d ds) ->
        0 < JS.mathInt (String d ds) < 2 ^ 53 ->
        parsePageReferences ("[P" ++ String d ds ++ "]" ++ rest)
        = JS.Finite (JS.mathInt (String d ds)) :: parsePageReferences rest)
  /\ (forall d ds rest,
        all_digits (String d ds) ->
        JS.mathInt (String d ds) < 2 ^ 1023 ->
        Forall JS.is_integer
               (parsePageReferences ("[P" ++ String d ds ++ "]" ++ rest))
        <-> Forall JS.is_integer (parsePageReferences rest)).
Proof.
  split; [|split; [|split; [|split]]].
  - intros response. unfold parsePageReferences, matchAll.
    apply Forall_forall. intros n Hn.
    rewrite list_elem_of_filter in Hn.
    destruct Hn as [Htruthy Hn].
    rewrite list_elem_of_In in Hn. apply in_map_iff in Hn as [ds [<- Hds]].
    rewrite <- list_elem_of_In in Hds.
    pose proof (matchAll_from_digits response 0) as Hall.
    rewrite Forall_forall in Hall.
    apply truthy_positive; [|exact Htruthy].
    apply parseInt_nonnegative, Hall, Hds.
  - reflexivity.
  - intros k rest.
    change (Examples.zeros (S k)) with (String "0" (Examples.zeros k)).
    rewrite (parsePageReferences_marker "0" (Examples.zeros k) rest
               (all_digits_zeros (S k))).
    assert (Hzero : JS.mathInt (String "0" (Examples.zeros k)) = 0)
      by exact (mathInt_from_zeros (S k)).
    unfold JS.parseInt. rewrite Hzero. reflexivity.
  - intros d ds rest Hdigits [Hpos Hsafe].
    rewrite (parsePageReferences_marker d ds rest Hdigits).
    unfold JS.parseInt. rewrite (toNumber_exact _ Hsafe). cbn [JS.truthy_number].
    destruct (Z.eqb_spec (JS.mathInt (String d ds)) 0); [lia | reflexivity].
  - intros d ds rest Hdigits Hbound.
    rewrite (parsePageReferences_marker d ds rest Hdigits).
    pose proof (toNumber_integer (JS.mathInt (String d ds))
                  (conj (mathInt_nonneg _ Hdigits) Hbound)) as Hint.
    destruct (JS.truthy_number _); cbn [app]; [|reflexivity].
    rewrite Forall_cons. tauto.
Qed.

(** C10, as it is written, fails: every element is not an integer.  A
    marker with a number of 401 digits is read as [Infinity], which is
    positive and no integer. *)
Lemma overlong_marker_is_no_integer :
  parsePageReferences ("[P1" ++ Examples.zeros 400 ++ "]") = [JS.Infinity]
  /\ ~ Forall JS.is_integer (parsePageReferences ("[P1" ++ Examples.zeros 400 ++ "]")).
Proof.
  assert (Hparse : parsePageReferences ("[P1" ++ Examples.zeros 400 ++ "]")
                   = [JS.Infinity]) by (vm_compute; reflexivity).
  split; [exact Hparse|].
  rewrite Hparse. intros Hall. apply Forall_cons in Hall as [Hint _]. exact Hint.
Qed.

End ParserFacts.

(* ===================================================================== *)
(** * The highlight link *)
(* ===================================================================== *)

Section HighlightFacts.

Import PDFExtraction.

(** Lower-casing and blanking leave only plain characters and white space. *)
Lemma blank_lower_char c :
  let d := JS.lower_char c in
  let e := if JS.is_word d || JS.is_space d then d else " "%char in
  JS.is_plain e || JS.is_space e = true.
Proof. destruct c as [[] [] [] [] [] [] [] []]; vm_compute; reflexivity. Qed.

Lemma blank_lower_chars s :
  JS.all_chars (fun c => JS.is_plain c || JS.is_space c)
               (JS.blank_punctuation (JS.toLowerCase s)).
Proof.
  induction s as [|c r IH]; cbn [JS.toLowerCase JS.blank_punctuation].
  - constructor.
  - constructor; [apply blank_lower_char | exact IH].
Qed.

(** The pieces of a split hold no white space. *)
Lemma split_ws_from_chars (P : ascii -> bool) s :
  JS.all_chars (fun c => P c || JS.is_space c) s ->
  forall in_gap, Forall (JS.all_chars P) (JS.split_ws_from in_gap s).
Proof.
  induction s as [|c r IH]; intros Hs in_gap; cbn [JS.split_ws_from].
  - repeat constructor.
  - inversion Hs as [|? ? Hc Hr]; subst.
    specialize (IH Hr).
    destruct (JS.is_space c) eqn:Hsp.
    + destruct in_gap; [apply IH | constructor; [constructor | apply IH]].
    + rewrite orb_false_r in Hc.
      pose proof (IH false) as Hf.
      destruct (JS.split_ws_from false r) as [|w ws].
      * repeat constructor. exact Hc.
      * inversion Hf; subst. constructor; [constructor; assumption | assumption].
Qed.

Lemma encode_plain_char c :
  JS.is_plain c = true -> JS.encode_char c = String c EmptyString.
Proof.
  destruct c as [[] [] [] [] [] [] [] []]; vm_compute; intros H;
    first [reflexivity | discriminate H].
Qed.

Lemma encode_plain w : JS.all_chars JS.is_plain w -> JS.encodeURIComponent w = w.
Proof.
  induction w as [|c w IH]; intros H; cbn [JS.encodeURIComponent].
  - reflexivity.
  - inversion H as [|? ? Hc Hw]; subst.
    rewrite (encode_plain_char c Hc), (IH Hw). reflexivity.
Qed.

Lemma encode_app a b :
  JS.encodeURIComponent (a ++ b)
  = (JS.encodeURIComponent a ++ JS.encodeURIComponent b)%string.
Proof.
  induction a as [|c a IH]; [reflexivity|].
  rewrite append_cons. cbn [JS.encodeURIComponent].
  rewrite IH, append_assoc. reflexivity.
Qed.

(** Encoding a list of plain words joined by spaces only turns each space
    into its escape. *)
Lemma encode_join ws :
  Forall (JS.all_chars JS.is_plain) ws ->
  JS.encodeURIComponent (JS.join " " ws) = JS.join "%20" ws.
Proof.
  induction 1 as [|w ws Hw Hws IH]; [reflexivity|].
  destruct ws as [|w' ws'].
  - cbn [JS.join]. apply encode_plain, Hw.
  - change (JS.join " " (w :: w' :: ws'))
      with (w ++ " " ++ JS.join " " (w' :: ws'))%string.
    change (JS.join "%20" (w :: w' :: ws'))
      with (w ++ "%20" ++ JS.join "%20" (w' :: ws'))%string.
    rewrite !encode_app, IH, (encode_plain w Hw). reflexivity.
Qed.

Lemma highlightWords_plain searchText :
  Forall (fun w => 3 < JS.len w /\ JS.all_chars JS.is_plain w)
         (highlightWords searchText).
Proof.
  unfold highlightWords. apply Forall_take, Forall_forall. intros w Hw.
  apply list_elem_of_filter in Hw as [Hlong Hin]. split.
  - apply Is_true_true in Hlong. now apply Z.ltb_lt.
  - pose proof (split_ws_from_chars JS.is_plain _ (blank_lower_chars searchText) false)
      as Hall.
    rewrite Forall_forall in Hall. apply Hall, Hin.
Qed.

(** C8.  The link is the base address followed by the page and search
    locators; the search parameter holds the first three words longer than
    three characters of the quote (lower-cased, punctuation blanked, split
    at white space), in their order, each unchanged by the URL encoding
    and separated by the escape of a space.  For the quote "Patients must
    be between 18 and 65 years old" these are patients, must, between. *)
Theorem generateHighlightURL_search_words :
  (forall pdfUrl page searchText,
      let words := highlightWords searchText in
      generateHighlightURL pdfUrl page searchText
      = (pdfUrl ++ "#page=" ++ JS.show page ++ "&search=" ++ JS.join "%20" words)%string
      /\ words = take 3 (filter (fun w => 3 <? JS.len w)
                           (JS.split_ws (JS.blank_punctuation (JS.toLowerCase searchText))))
      /\ (length words <= 3)%nat
      /\ Forall (fun w => 3 < JS.len w /\ JS.all_chars JS.is_plain w) words)
  /\ highlightWords "Patients must be between 18 and 65 years old"
     = ["patients"; "must"; "between"]
  /\ (forall pdfUrl page,
        generateHighlightURL pdfUrl page "Patients must be between 18 and 65 years old"
        = (pdfUrl ++ "#page=" ++ JS.show page ++ "&search=patients%20must%20between")%string).
Proof.
  assert (Hgen : forall pdfUrl page searchText,
             generateHighlightURL pdfUrl page searchText
             = (pdfUrl ++ "#page=" ++ JS.show page ++ "&search="
                ++ JS.join "%20" (highlightWords searchText))%string).
  { intros pdfUrl page searchText. unfold generateHighlightURL.
    rewrite encode_join; [reflexivity|].
    eapply Forall_impl; [apply highlightWords_plain|]. now intros w [_ Hw]. }
  split; [|split].
  - intros pdfUrl page searchText words. subst words.
    split; [apply Hgen|]. split; [reflexivity|]. split.
    + unfold highlightWords. rewrite length_take. lia.
    + apply highlightWords_plain.
  - reflexivity.
  - intros pdfUrl page. rewrite Hgen. reflexivity.
Qed.

End HighlightFacts.

(* ===================================================================== *)
(** * The keyword fallback *)
(* ===================================================================== *)

Section KeywordFacts.

Import SourceExtraction Examples.

(** The score of a page counts the query words found in it. *)
Lemma keywordStep_score content pageText words :
  forall st,
    (fold_left (keywordStep content pageText) words st).2
    = st.2 + keywordHits pageText words.
Proof.
  induction words as [|word rest IH]; intros [[bestMatch bestContext] score].
  - cbn. lia.
  - cbn [fold_left keywordHits]. rewrite IH. unfold keywordStep.
    destruct (JS.indexOf pageText word =? -1); [cbn; lia|].
    destruct (JS.len bestMatch <? _); cbn; lia.
Qed.

Lemma fallbackSource_relevance originalQuery pt :
  relevance (fallbackSource originalQuery pt)
  = relevanceOf (keywordHits (JS.toLowerCase (content pt)) (queryWordsOf originalQuery))
                (Z.of_nat (length (queryWordsOf originalQuery))).
Proof.
  unfold fallbackSource.
  pose proof (keywordStep_score (content pt) (JS.toLowerCase (content pt))
                (queryWordsOf originalQuery) (EmptyString, EmptyString, 0)) as Hscore.
  destruct (fold_left _ _ _) as [[bestMatch bestContext] score].
  cbn [snd] in Hscore. subst score.
  destruct (_ =? 0); reflexivity.
Qed.

Lemma relevanceOf_tiers matchScore (keywords : nat) :
  (relevanceOf matchScore (Z.of_nat keywords) = high
   <-> 7 * Z.of_nat keywords <= 10 * matchScore)
  /\ (relevanceOf matchScore (Z.of_nat keywords) = medium
      <-> 3 * Z.of_nat keywords <= 10 * matchScore < 7 * Z.of_nat keywords)
  /\ (relevanceOf matchScore (Z.of_nat keywords) = low
      <-> 10 * matchScore < 3 * Z.of_nat keywords).
Proof.
  unfold relevanceOf.
  destruct (Z.leb_spec (7 * Z.of_nat keywords) (10 * matchScore));
    [|destruct (Z.leb_spec (3 * Z.of_nat keywords) (10 * matchScore))];
    repeat split; intros; try discriminate; try lia; reflexivity.
Qed.

Lemma createIntelligentFallback_sources originalQuery chatPDFResponse pageTexts :
  sources (createIntelligentFallback originalQuery chatPDFResponse pageTexts)
  = map (fallbackSource originalQuery) pageTexts.
Proof. reflexivity. Qed.

(** C5, as the code has it.  The keyword fallback takes the words of the
    question that are longer than three characters, for the enrollment
    question "what", "enrollment" and "limit", and looks each up as it is
    written in the lower-cased page text.  The citation of a page is
    'high' when the number of words found is at least 0.7 times the number
    of keywords, 'medium' when it is at least 0.3 times, 'low' otherwise;
    for the enrollment question a page is 'high' or 'medium' exactly when
    it holds one of the three words, and the page that only says
    "Patients must be between 18 and 65 years old to enroll" is 'low'. *)
Theorem keyword_fallback_relevance :
  (forall originalQuery chatPDFResponse pageTexts,
      map relevance
          (sources (createIntelligentFallback originalQuery chatPDFResponse pageTexts))
      = map (fun pt =>
               relevanceOf
                 (keywordHits (JS.toLowerCase (content pt)) (queryWordsOf originalQuery))
                 (Z.of_nat (length (queryWordsOf originalQuery))))
            pageTexts)
  /\ (forall matchScore (keywords : nat),
        (relevanceOf matchScore (Z.of_nat keywords) = high
         <-> 7 * Z.of_nat keywords <= 10 * matchScore)
        /\ (relevanceOf matchScore (Z.of_nat keywords) = medium
            <-> 3 * Z.of_nat keywords <= 10 * matchScore < 7 * Z.of_nat keywords)
        /\ (relevanceOf matchScore (Z.of_nat keywords) = low
            <-> 10 * matchScore < 3 * Z.of_nat keywords))
  /\ queryWordsOf enrollmentQuestion = ["what"; "enrollment"; "limit"]
  /\ (forall chatPDFResponse pt,
        map relevance
            (sources (createIntelligentFallback enrollmentQuestion chatPDFResponse [pt]))
        <> [low]
        <-> exists word,
            word ∈ ["what"; "enrollment"; "limit"]
            /\ JS.indexOf (JS.toLowerCase (content pt)) word <> -1)
  /\ (forall chatPDFResponse,
        map relevance
            (sources (createIntelligentFallback enrollmentQuestion chatPDFResponse
                        [enrollmentPage]))
        = [low]).
Proof.
  split; [|split; [|split; [|split]]].
  - intros q r pts. rewrite createIntelligentFallback_sources, map_map.
    apply map_ext. intros pt. apply fallbackSource_relevance.
  - apply relevanceOf_tiers.
  - reflexivity.
  - intros r pt. rewrite createIntelligentFallback_sources. cbn [map].
    rewrite fallbackSource_relevance.
    change (queryWordsOf enrollmentQuestion) with ["what"; "enrollment"; "limit"].
    cbn [keywordHits length]. unfold relevanceOf.
    set (text := JS.toLowerCase (content pt)).
    split.
    + intros Hne.
      destruct (JS.indexOf text "what" =? -1) eqn:E1;
        [|exists "what"; split; [set_solver | now apply Z.eqb_neq]].
      destruct (JS.indexOf text "enrollment" =? -1) eqn:E2;
        [|exists "enrollment"; split; [set_solver | now apply Z.eqb_neq]].
      destruct (JS.indexOf text "limit" =? -1) eqn:E3;
        [|exists "limit"; split; [set_solver | now apply Z.eqb_neq]].
      exfalso. apply Hne. reflexivity.
    + intros [word [Hin Hfound]] Heq.
      apply Z.eqb_neq in Hfound.
      destruct (JS.indexOf text "what" =? -1) eqn:E1;
        destruct (JS.indexOf text "enrollment" =? -1) eqn:E2;
        destruct (JS.indexOf text "limit" =? -1) eqn:E3;
        try discriminate Heq.
      repeat (apply elem_of_cons in Hin as [-> | Hin]; [congruence|]).
      now apply elem_of_nil in Hin.
  - reflexivity.
Qed.

(** C5, as it is written, fails: the page that only holds the sentence of
    the claim contains none of the keywords "what", "enrollment", "limit"
    (it says "enroll", and no stem is taken) and is classified 'low'. *)
Lemma enrollment_page_is_low :
  queryWordsOf enrollmentQuestion = ["what"; "enrollment"; "limit"]
  /\ map (fun word => JS.indexOf (JS.toLowerCase (content enrollmentPage)) word)
         (queryWordsOf enrollmentQuestion) = [-1; -1; -1]
  /\ map (fun s => (page s, relevance s))
         (sources (createIntelligentFallback enrollmentQuestion "" [enrollmentPage]))
     = [(1, low)].
Proof. repeat split. Qed.

End KeywordFacts.

(* ===================================================================== *)
(** * Page extraction *)
(* ===================================================================== *)

Section ExtractionFacts.

Import PDFExtraction SourceExtraction Examples.

Lemma out_of_range_inRange numPages pageNum :
  (pageNum <? 1) || (pageNum >? numPages) = negb (inRange numPages pageNum).
Proof. unfold inRange. lia. Qed.

Lemma withWarnings_nil s : withWarnings [] s = s.
Proof. destruct s. unfold withWarnings. cbn. now rewrite app_nil_r. Qed.

Lemma withWarnings_app ws1 ws2 s : withWarnings ws2 (withWarnings ws1 s) = withWarnings (ws1 ++ ws2) s.
Proof. unfold withWarnings. cbn. now rewrite app_assoc. Qed.

(** The page loop: when every requested page within the document can be
    read, the loop returns the pages within the document, in the order of
    the request, and writes one warning for each of the others. *)
Lemma extractLoop_in_range pdf pageNumbers :
  (forall n, n ∈ pageNumbers -> inRange (numPages pdf) n = true ->
             is_Some (readPage pdf n)) ->
  forall s, exists pages,
    extractLoop pdf pageNumbers s
    = (Ok pages,
       withWarnings (map (fun n => Warn_out_of_range n (numPages pdf))
                   (filter (fun n => negb (inRange (numPages pdf) n)) pageNumbers)) s)
    /\ map pageNumber pages = filter (fun n => inRange (numPages pdf) n) pageNumbers
    /\ Forall (fun p => readPage pdf (pageNumber p) = Some (text p)) pages.
Proof.
  induction pageNumbers as [|n rest IH]; intros Hread s.
  - exists []. cbn. rewrite withWarnings_nil. repeat split. constructor.
  - cbn [extractLoop]. rewrite out_of_range_inRange.
    assert (Hrest : forall m, m ∈ rest -> inRange (numPages pdf) m = true ->
                              is_Some (readPage pdf m)).
    { intros m Hm. apply Hread. now apply list_elem_of_further. }
    destruct (inRange (numPages pdf) n) eqn:Hn; cbn [negb].
    + destruct (Hread n (list_elem_of_here _ _) Hn) as [pageText Htext].
      rewrite Htext.
      destruct (IH Hrest s) as [pages [Hrun [Hnums Htexts]]].
      exists ({| pageNumber := n; text := pageText |} :: pages).
      unfold bind. rewrite Hrun.
      rewrite filter_cons_False by (rewrite Hn; cbn; tauto).
      rewrite filter_cons_True by (rewrite Hn; exact I).
      repeat split.
      * cbn [map pageNumber]. now rewrite Hnums.
      * constructor; [exact Htext | exact Htexts].
    + destruct (IH Hrest (withWarnings [Warn_out_of_range n (numPages pdf)] s))
        as [pages [Hrun [Hnums Htexts]]].
      exists pages. unfold bind, warn.
      change ({| textCache := textCache s; trace := trace s;
                 console := console s ++ [Warn_out_of_range n (numPages pdf)] |})
        with (withWarnings [Warn_out_of_range n (numPages pdf)] s).
      rewrite Hrun, withWarnings_app.
      rewrite filter_cons_True by (rewrite Hn; exact I).
      rewrite filter_cons_False by (rewrite Hn; cbn; tauto).
      repeat split; assumption.
Qed.

(** Whatever the loop returns lies within the document. *)
Lemma extractLoop_returns pdf pageNumbers :
  forall s pages s',
    extractLoop pdf pageNumbers s = (Ok pages, s') ->
    map pageNumber pages = filter (fun n => inRange (numPages pdf) n) pageNumbers
    /\ Forall (fun p => readPage pdf (pageNumber p) = Some (text p)) pages
    /\ s' = withWarnings
              (map (fun n => Warn_out_of_range n (numPages pdf))
                   (filter (fun n => negb (inRange (numPages pdf) n)) pageNumbers)) s.
Proof.
  induction pageNumbers as [|n rest IH]; intros s pages s' Hrun.
  - cbn in Hrun. injection Hrun as <- <-. rewrite withWarnings_nil.
    repeat split. constructor.
  - cbn [extractLoop] in Hrun. rewrite out_of_range_inRange in Hrun.
    destruct (inRange (numPages pdf) n) eqn:Hn; cbn [negb] in Hrun.
    + destruct (readPage pdf n) as [pageText|] eqn:Htext; [|discriminate Hrun].
      unfold bind in Hrun.
      destruct (extractLoop pdf rest s) as [[results|] s1] eqn:Hrest;
        [|discriminate Hrun].
      injection Hrun as <- <-.
      destruct (IH _ _ _ Hrest) as [Hnums [Htexts Hstate]].
      rewrite filter_cons_True by (rewrite Hn; exact I).
      rewrite filter_cons_False by (rewrite Hn; cbn; tauto).
      repeat split.
      * cbn [map pageNumber]. now rewrite Hnums.
      * constructor; [exact Htext | exact Htexts].
      * exact Hstate.
    + unfold bind, warn in Hrun.
      change ({| textCache := textCache s; trace := trace s;
                 console := console s ++ [Warn_out_of_range n (numPages pdf)] |})
        with (withWarnings [Warn_out_of_range n (numPages pdf)] s) in Hrun.
      destruct (IH _ _ _ Hrun) as [Hnums [Htexts Hstate]].
      rewrite filter_cons_False by (rewrite Hn; cbn; tauto).
      rewrite filter_cons_True by (rewrite Hn; exact I).
      repeat split; [exact Hnums | exact Htexts|].
      rewrite Hstate, withWarnings_app. reflexivity.
Qed.

(** C2, as the code has it.  Whatever [extractPages] returns, it returns
    exactly the requested pages that lie within [1, numPages] of the
    loaded document, in the order of the request and with their text, and
    it has written one warning for each requested page outside that range.
    It does return, a page outside the range raising no error, whenever
    pdf.js loads the document and every requested page within the range
    can be read.  The placeholder fallback of the extractor is not
    guarded: it returns one entry for every requested page. *)
Theorem extractPages_within_document :
  (forall pdfjs pdfUrl pageNumbers s pages s',
      extractPages pdfjs pdfUrl pageNumbers s = (Ok pages, s') ->
      exists pdf,
        pdfjs (trace s) pdfUrl = Some pdf
        /\ map pageNumber pages
           = filter (fun n => inRange (numPages pdf) n) pageNumbers
        /\ Forall (fun p => 1 <= pageNumber p <= numPages pdf) pages
        /\ Forall (fun p => readPage pdf (pageNumber p) = Some (text p)) pages
        /\ console s'
           = (console s
              ++ map (fun n => Warn_out_of_range n (numPages pdf))
                     (filter (fun n => negb (inRange (numPages pdf) n)) pageNumbers))%list)
  /\ (forall pdfjs pdfUrl pdf pageNumbers s,
        pdfjs (trace s) pdfUrl = Some pdf ->
        (forall n, n ∈ pageNumbers -> inRange (numPages pdf) n = true ->
                   is_Some (readPage pdf n)) ->
        exists pages s', extractPages pdfjs pdfUrl pageNumbers s = (Ok pages, s'))
  /\ (forall pdfUrl pageNumbers,
        map pnum (fallbackPDFExtraction pdfUrl pageNumbers) = pageNumbers).
Proof.
  split; [|split].
  - intros pdfjs pdfUrl pageNumbers s pages s' Hrun.
    unfold extractPages, bind, call in Hrun.
    destruct (pdfjs (trace s) pdfUrl) as [pdf|] eqn:Hload; [|discriminate Hrun].
    exists pdf. split; [reflexivity|].
    destruct (extractLoop_returns pdf pageNumbers _ _ _ Hrun) as [Hnums [Htexts ->]].
    split; [exact Hnums|]. split; [|split; [exact Htexts | reflexivity]].
    apply Forall_forall. intros p Hp.
    assert (Hin : pageNumber p ∈ map pageNumber pages).
    { apply list_elem_of_In, in_map, list_elem_of_In, Hp. }
    rewrite Hnums in Hin. apply list_elem_of_filter in Hin as [Hin _].
    apply Is_true_true in Hin. unfold inRange in Hin. lia.
  - intros pdfjs pdfUrl pdf pageNumbers s Hload Hread.
    destruct (extractLoop_in_range pdf pageNumbers Hread (emit (Ev_getDocument pdfUrl) s))
      as [pages [Hrun _]].
    exists pages. eexists. unfold extractPages, bind, call. rewrite Hload, Hrun.
    reflexivity.
  - intros pdfUrl pageNumbers. unfold fallbackPDFExtraction.
    rewrite map_map. cbn. apply map_id.
Qed.

(** The theorem at work on the two-page document: asked for pages 5, 1, 0
    and 2, [extractPages] returns pages 1 and 2 and warns about the two
    others. *)
Lemma extractPages_within_document_witness :
  exists pages s',
    extractPages loadsTwoPages "u" [5; 1; 0; 2] fresh = (Ok pages, s')
    /\ map pageNumber pages = [1; 2]
    /\ console s' = [Warn_out_of_range 5 2; Warn_out_of_range 0 2].
Proof.
  destruct (proj1 (proj2 extractPages_within_document)
              loadsTwoPages "u" twoPages [5; 1; 0; 2] fresh eq_refl
              (fun n _ _ => ex_intro _ _ eq_refl))
    as [pages [s' Hrun]].
  exists pages, s'. split; [exact Hrun|].
  destruct (proj1 extractPages_within_document _ _ _ _ _ _ Hrun)
    as [pdf [Hload [Hnums [_ [_ Hwarn]]]]].
  injection Hload as <-. split; [exact Hnums | exact Hwarn].
Defined.

(** C2, as it is written, fails: asked for page 5 of the two-page
    document, the extractor passes the page over in the pdf.js strategy,
    finds the result empty, goes on to the next strategies and returns an
    entry for page 5. *)
Lemma extractor_returns_page_outside_document :
  numPages twoPages = 2
  /\ exists pages s',
      extractTextFromPages offline documentU [5] fresh = (Ok pages, s')
      /\ map pnum pages = [5]
      /\ console s' = [Warn_out_of_range 5 2].
Proof. split; [reflexivity|]. eexists. eexists. repeat split. Qed.

End ExtractionFacts.

(* ===================================================================== *)
(** * The text cache *)
(* ===================================================================== *)

Section CacheFacts.

Import PDFExtraction SourceExtraction Examples.

Lemma keeps_ret {A} (a : A) : keeps_cache (ret a).
Proof. intros s. reflexivity. Qed.

Lemma keeps_throw {A} : keeps_cache (@throw Session A).
Proof. intros s. reflexivity. Qed.

Lemma keeps_bind {A B} (m : M Session A) (k : A -> M Session B) :
  keeps_cache m -> (forall a, keeps_cache (k a)) -> keeps_cache (bind m k).
Proof.
  intros Hm Hk s. unfold bind. specialize (Hm s).
  destruct (m s) as [[a|] s1]; cbn in *; [|exact Hm].
  now rewrite Hk.
Qed.

Lemma keeps_try_catch {A} (m h : M Session A) :
  keeps_cache m -> keeps_cache h -> keeps_cache (try_catch m h).
Proof.
  intros Hm Hh s. unfold try_catch. specialize (Hm s).
  destruct (m s) as [[a|] s1]; cbn in *; [exact Hm|].
  now rewrite Hh.
Qed.

Lemma keeps_attempt {A} (m : M Session A) : keeps_cache m -> keeps_cache (attempt m).
Proof.
  intros Hm s. unfold attempt. specialize (Hm s).
  destruct (m s) as [[a|] s1]; exact Hm.
Qed.

Lemma keeps_call {A} e (outcome : list Event -> option A) : keeps_cache (call e outcome).
Proof. intros s. unfold call. destruct (outcome (trace s)); reflexivity. Qed.

Lemma keeps_warn w : keeps_cache (warn w).
Proof. intros s. reflexivity. Qed.

Lemma keeps_getCache documentId : keeps_cache (getCache documentId).
Proof. intros s. reflexivity. Qed.

Lemma keeps_extractLoop pdf pageNumbers : keeps_cache (extractLoop pdf pageNumbers).
Proof.
  induction pageNumbers as [|n rest IH]; cbn [extractLoop].
  - apply keeps_ret.
  - destruct (_ || _).
    + apply keeps_bind; [apply keeps_warn | intros _; exact IH].
    + destruct (readPage pdf n); [|apply keeps_throw].
      apply keeps_bind; [exact IH | intros; apply keeps_ret].
Qed.

Lemma keeps_extractViaPDFjs W document pageNumbers :
  keeps_cache (extractViaPDFjs W document pageNumbers).
Proof.
  unfold extractViaPDFjs, extractPages.
  destruct (JS.or_else _ _) as [pdfUrl|]; [|apply keeps_throw].
  destruct (JS.truthy pdfUrl); [|apply keeps_throw].
  repeat (apply keeps_bind; intros);
    auto using keeps_call, keeps_extractLoop, keeps_ret.
Qed.

Lemma keeps_importModule loads : keeps_cache (importModule loads).
Proof. intros s. unfold importModule. destruct (loads (trace s)); reflexivity. Qed.

Lemma keeps_extractRealPDFText W pdfUrl pageNumbers :
  keeps_cache (extractRealPDFText W pdfUrl pageNumbers).
Proof.
  unfold extractRealPDFText.
  apply keeps_try_catch; [|apply keeps_ret].
  apply keeps_bind; [apply keeps_importModule | intros _].
  apply keeps_bind; [apply keeps_call | intros; apply keeps_ret].
Qed.

(** No strategy of [extractTextFromPages] writes to the cache. *)
Lemma keeps_extractTextFromPages W document pageNumbers :
  keeps_cache (extractTextFromPages W document pageNumbers).
Proof.
  unfold extractTextFromPages.
  apply keeps_try_catch; [|apply keeps_ret].
  apply keeps_bind; [apply keeps_getCache|]. intros [cached|]; [apply keeps_ret|].
  apply keeps_bind; [apply keeps_attempt, keeps_extractViaPDFjs|].
  intros [[|p ps]|]; try apply keeps_ret;
    (destruct (JS.or_else _ _) as [pdfUrl|]; [|apply keeps_ret];
     destruct (JS.truthy pdfUrl); [|apply keeps_ret];
     apply keeps_bind; [apply keeps_attempt, keeps_extractRealPDFText|];
     intros [pages|]; apply keeps_ret).
Qed.

(** C3 fails on the code.  The service looks the document up in its text
    cache, but nothing ever writes to the cache: [extractTextFromPages]
    leaves it as it found it, so the cache of a service is empty for as
    long as the service lives.  Asked twice for pages 1 and 2 of the same
    document, a fresh service returns the same texts both times and loads
    the document from the network both times. *)
Theorem second_extraction_loads_the_document_again :
  (forall W document pageNumbers s,
      textCache (extractTextFromPages W document pageNumbers s).2 = textCache s)
  /\ (let first := extractTextFromPages offline documentU [1; 2] fresh in
      let second := extractTextFromPages offline documentU [1; 2] first.2 in
      first.1 = second.1
      /\ trace first.2 = [Ev_getDocument "u"]
      /\ textCache first.2 !! id documentU = None
      /\ trace second.2 = [Ev_getDocument "u"; Ev_getDocument "u"]).
Proof.
  split; [exact keeps_extractTextFromPages|].
  cbv zeta. repeat split.
Qed.

End CacheFacts.

(* ===================================================================== *)
(** * The pipeline and its confidence *)
(* ===================================================================== *)

Section PipelineFacts.

Import PDFExtraction SourceExtraction Examples.

Lemma createIntelligentFallback_empty originalQuery chatPDFResponse pageTexts :
  sources (createIntelligentFallback originalQuery chatPDFResponse pageTexts) = []
  <-> pageTexts = [].
Proof.
  rewrite createIntelligentFallback_sources.
  destruct pageTexts; cbn; split; congruence.
Qed.

(** C4, as the code has it.  When the provider gave no reference and the
    answer holds no page marker, [extractSources] returns the empty result
    with confidence 0 and touches nothing; these are the sources and the
    confidence of [emptyResult].  A matching step that finds no citation
    keeps its own confidence: the keyword fallback returns 0.3 when it has
    no citation, and the reply of a model is returned as it came. *)
Theorem no_page_reference_gives_empty_result
  W originalQuery chatPDFResponse document chatPDFReferences s :
  referencedPages chatPDFResponse chatPDFReferences = [] ->
  extractSources W originalQuery chatPDFResponse document chatPDFReferences s
  = (Ok emptyResult, s)
  /\ sources emptyResult = []
  /\ confidence emptyResult == 0
  /\ (forall pageTexts,
        sources (createIntelligentFallback originalQuery chatPDFResponse pageTexts) = []
        -> confidence (createIntelligentFallback originalQuery chatPDFResponse pageTexts)
           = 3 # 10)
  /\ (forall model reply pageTexts,
        openai W = Some model ->
        model (trace s) originalQuery chatPDFResponse pageTexts = Some reply ->
        findExactSources W originalQuery chatPDFResponse pageTexts s
        = (Ok reply, emit Ev_openai s)).
Proof.
  intros Hnone. repeat split.
  - unfold extractSources. rewrite Hnone. reflexivity.
  - intros pageTexts Hempty.
    apply createIntelligentFallback_empty in Hempty. subst. reflexivity.
  - intros model reply pageTexts Hmodel Hreply.
    unfold findExactSources, bind, attempt, call. rewrite Hmodel, Hreply. reflexivity.
Qed.

(** The theorem at work: an answer without page markers, no reference
    from the provider. *)
Lemma no_page_reference_gives_empty_result_witness :
  extractSources findsNothing "what is the dose" "The dose is not stated." documentU
                 None fresh
  = (Ok emptyResult, fresh)
  /\ sources emptyResult = []
  /\ confidence emptyResult == 0
  /\ (forall pageTexts,
        sources (createIntelligentFallback "what is the dose" "The dose is not stated."
                   pageTexts) = []
        -> confidence (createIntelligentFallback "what is the dose"
                         "The dose is not stated." pageTexts)
           = 3 # 10)
  /\ (forall model reply pageTexts,
        openai findsNothing = Some model ->
        model (trace fresh) "what is the dose" "The dose is not stated." pageTexts
        = Some reply ->
        findExactSources findsNothing "what is the dose" "The dose is not stated."
                         pageTexts fresh
        = (Ok reply, emit Ev_openai fresh)).
Proof.
  apply (no_page_reference_gives_empty_result findsNothing "what is the dose"
           "The dose is not stated." documentU None fresh).
  reflexivity.
Defined.

(** C4, as it is written, fails: a result of the pipeline can have no
    citation and a confidence other than 0.  With a model that finds
    nothing to quote the pipeline returns the model's reply, no source and
    confidence 0.9.  The keyword fallback run on no page returns no source
    and confidence 0.3, and so does the pipeline when the only reference
    of the provider is the page number -1, which leaves no page to read. *)
Lemma empty_sources_with_confidence :
  (exists result s',
      extractSources findsNothing "what is the dose" "See [P1]." documentU None fresh
      = (Ok result, s')
      /\ sources result = []
      /\ confidence result = 9 # 10
      /\ ~ confidence result == 0)
  /\ (exists result s',
        extractSources offline "what is the dose" "See the protocol." documentU
                       (Some [-1]) fresh
        = (Ok result, s')
        /\ sources result = []
        /\ confidence result = 3 # 10
        /\ ~ confidence result == 0)
  /\ sources (createIntelligentFallback "what is the dose" "See [P1]." []) = []
  /\ confidence (createIntelligentFallback "what is the dose" "See [P1]." []) = 3 # 10.
Proof.
  split; [|split; [|split; reflexivity]].
  - eexists. eexists. split; [reflexivity|]. repeat split. discriminate.
  - eexists. eexists. split; [reflexivity|]. repeat split. discriminate.
Qed.

End PipelineFacts.

(* ===================================================================== *)
(** * The order of the displayed citations *)
(* ===================================================================== *)

Section PanelFacts.

Import SourceExtraction SourcesPanel Examples.

Lemma compare_before a b : compare a b <= 0 <-> before a b.
Proof.
  unfold compare, before.
  destruct (Z.eqb_spec (relevanceOrder (relevance a)) (relevanceOrder (relevance b)));
    cbn [negb]; lia.
Qed.

Lemma before_total a b : before a b \/ before b a.
Proof. unfold before. lia. Qed.

Lemma before_trans a b c : before a b -> before b c -> before a c.
Proof. unfold before. lia. Qed.

Lemma insert_perm x l : insert compare x l ≡ₚ x :: l.
Proof.
  induction l as [|y l IH]; cbn [insert]; [reflexivity|].
  destruct (compare x y <=? 0); [reflexivity|].
  rewrite IH. apply Permutation_swap.
Qed.


Lemma insert_sorted x l :
  StronglySorted before l -> StronglySorted before (insert compare x l).
Proof.
  induction l as [|y l IH]; intros Hl; cbn [insert].
  - repeat constructor.
  - apply StronglySorted_cons in Hl as [Hy Hl].
    destruct (Z.leb_spec (compare x y) 0) as [Hxy | Hxy].
    + apply compare_before in Hxy.
      apply StronglySorted_cons. split.
      * constructor; [exact Hxy|].
        eapply Forall_impl; [exact Hy|]. intros z. now apply before_trans.
      * apply StronglySorted_cons. now split.
    + assert (Hyx : before y x).
      { destruct (before_total x y) as [H | H]; [|exact H].
        apply compare_before in H. lia. }
      apply StronglySorted_cons. split; [|apply IH, Hl].
      rewrite insert_perm. now constructor.
Qed.

Lemma sort_sorted l : StronglySorted before (sort compare l).
Proof.
  induction l as [|x l IH]; cbn [sort fold_right]; [constructor|].
  apply insert_sorted, IH.
Qed.



End PanelFacts.

(* ===================================================================== *)
(** * The service switcher *)
(* ===================================================================== *)

Section SwitcherFacts.

Import Switcher.

Context {BackendResult UnifiedAIResponse : Type}.
Context (adaptBackendResponse : BackendResult -> UnifiedAIResponse).
Context (adaptChatPDFResponse : BackendResult -> string -> UnifiedAIResponse).
Context (adaptAnthropicResponse :
           ClaudeCitationsResponse -> string -> Z -> Z -> UnifiedAIResponse).
Context (createMockAnthropicResponse : string -> string -> string -> UnifiedAIResponse).

Local Abbreviation query' E :=
  (query adaptBackendResponse adaptChatPDFResponse adaptAnthropicResponse
         createMockAnthropicResponse E).
Local Abbreviation primary' E :=
  (primary adaptBackendResponse adaptChatPDFResponse adaptAnthropicResponse
           createMockAnthropicResponse E).
Local Abbreviation fallbacks' E :=
  (fallbacks adaptBackendResponse adaptAnthropicResponse E).
Local Abbreviation queryBackend' E := (queryBackend adaptBackendResponse E).
Local Abbreviation queryAnthropic' E := (queryAnthropic adaptAnthropicResponse E).

Lemma ofString_valid v : ofString v = None <-> v ∉ validTypes.
Proof.
  split.
  - intros H Hin. unfold validTypes in Hin.
    repeat (apply elem_of_cons in Hin as [-> | Hin]; [discriminate H|]).
    now apply elem_of_nil in Hin.
  - intros H. unfold ofString.
    destruct (String.eqb_spec v "backend") as [Hv | _];
      [exfalso; apply H; rewrite Hv; unfold validTypes; set_solver|].
    destruct (String.eqb_spec v "chatpdf") as [Hv | _];
      [exfalso; apply H; rewrite Hv; unfold validTypes; set_solver|].
    destruct (String.eqb_spec v "anthropic") as [Hv | _];
      [exfalso; apply H; rewrite Hv; unfold validTypes; set_solver|].
    destruct (String.eqb_spec v "anthropic-mockup") as [Hv | _];
      [exfalso; apply H; rewrite Hv; unfold validTypes; set_solver|].
    reflexivity.
Qed.

Lemma query_runs (E : @Env BackendResult) params overrideService s serviceType s0 :
  selected E overrideService s = (Ok serviceType, s0) ->
  query' E params overrideService s
  = try_catch (primary' E serviceType params) (fallbacks' E serviceType params) s0.
Proof. intros Hsel. unfold query, bind. now rewrite Hsel. Qed.

(** C1.  Let the selected provider fail.  If it is not Anthropic and the
    Claude service then answers, [query] returns the adapted answer of
    Claude, and the call to Claude is the last call made: the backend is
    not asked as a final fallback.  If the selected provider is Anthropic
    itself, it is not asked a second time: [query] goes on with the
    backend query, from the state the failure left. *)
Theorem anthropic_fallback_then_no_backend
  (E : @Env BackendResult) params overrideService s serviceType s0 :
  selected E overrideService s = (Ok serviceType, s0) ->
  (forall s1 claudeResult,
      serviceType <> anthropic ->
      primary' E serviceType params s0 = (Throw, s1) ->
      claudeAvailable E = true ->
      claudeService E (history s1) (message params) (claudeDocument params)
      = Some claudeResult ->
      query' E params overrideService s
      = (Ok (adaptAnthropicResponse claudeResult (documentUrlOf params)
               (input_tokens (usage claudeResult))
               (output_tokens (usage claudeResult))),
         {| history := history s1
                       ++ [Call_claude (message params) (claudeDocument params)];
            warned := warned s1 |}))
  /\ (forall s1,
        serviceType = anthropic ->
        primary' E serviceType params s0 = (Throw, s1) ->
        query' E params overrideService s = queryBackend' E params s1).
Proof.
  intros Hsel. rewrite (query_runs E params overrideService s serviceType s0 Hsel).
  split.
  - intros s1 claudeResult Hother Hfail Havailable Hanswer.
    unfold try_catch. rewrite Hfail.
    unfold fallbacks, bind, attempt.
    assert (Hneq : AIServiceType_eqb serviceType anthropic = false)
      by (destruct serviceType; try reflexivity; congruence).
    rewrite Hneq. cbn [negb].
    unfold queryAnthropic, bind, ask. rewrite Havailable, Hanswer. reflexivity.
  - intros s1 -> Hfail.
    unfold try_catch. rewrite Hfail. reflexivity.
Qed.

Lemma history_only_ret {A} (a : A) : history_only (ret a).
Proof. intros s s' H. split; [reflexivity | exact H]. Qed.

Lemma history_only_throw {A} : history_only (@throw State A).
Proof. intros s s' H. split; [reflexivity | exact H]. Qed.

Lemma history_only_bind {A B} (m : M State A) (k : A -> M State B) :
  history_only m -> (forall a, history_only (k a)) -> history_only (bind m k).
Proof.
  intros Hm Hk s s' H. unfold bind. destruct (Hm s s' H) as [H1 H2].
  destruct (m s) as [[a|] s1], (m s') as [[a'|] s1']; cbn in *; try discriminate.
  - injection H1 as ->. now apply Hk.
  - split; [reflexivity | exact H2].
Qed.

Lemma history_only_try_catch {A} (m h : M State A) :
  history_only m -> history_only h -> history_only (try_catch m h).
Proof.
  intros Hm Hh s s' H. unfold try_catch. destruct (Hm s s' H) as [H1 H2].
  destruct (m s) as [[a|] s1], (m s') as [[a'|] s1']; cbn in *; try discriminate.
  - split; [exact H1 | exact H2].
  - now apply Hh.
Qed.

Lemma history_only_attempt {A} (m : M State A) :
  history_only m -> history_only (attempt m).
Proof.
  intros Hm s s' H. unfold attempt. destruct (Hm s s' H) as [H1 H2].
  destruct (m s) as [[a|] s1], (m s') as [[a'|] s1']; cbn in *; try discriminate.
  - injection H1 as ->. split; [reflexivity | exact H2].
  - split; [reflexivity | exact H2].
Qed.

Lemma history_only_ask {A} c (outcome : list Call -> option A) :
  history_only (ask c outcome).
Proof.
  intros s s' H. unfold ask. rewrite H.
  destruct (outcome (history s')); cbn; split; reflexivity.
Qed.

Lemma history_only_queryBackend (E : @Env BackendResult) params :
  history_only (queryBackend' E params).
Proof.
  apply history_only_bind; [apply history_only_ask | intros; apply history_only_ret].
Qed.

Lemma history_only_queryAnthropic (E : @Env BackendResult) params :
  history_only (queryAnthropic' E params).
Proof.
  unfold queryAnthropic. destruct (claudeAvailable E); [|apply history_only_throw].
  apply history_only_bind; [apply history_only_ask | intros; apply history_only_ret].
Qed.

Lemma history_only_primary (E : @Env BackendResult) serviceType params :
  history_only (primary' E serviceType params).
Proof.
  destruct serviceType; cbn [primary].
  - apply history_only_queryBackend.
  - apply history_only_bind; [apply history_only_ask | intros; apply history_only_ret].
  - apply history_only_queryAnthropic.
  - apply history_only_ret.
Qed.

Lemma history_only_fallbacks (E : @Env BackendResult) serviceType params :
  history_only (fallbacks' E serviceType params).
Proof.
  unfold fallbacks. apply history_only_bind.
  - destruct (negb _); [apply history_only_attempt, history_only_queryAnthropic
                       | apply history_only_ret].
  - intros [response|]; [apply history_only_ret|].
    destruct (negb _); [apply history_only_queryBackend | apply history_only_throw].
Qed.

(** C9.  When the setting is unset or holds a value that is none of
    'backend', 'chatpdf', 'anthropic', 'anthropic-mockup', the provider
    selected is Anthropic, and [query] gives the result and makes the
    calls it gives and makes when the setting is 'anthropic' (a warning
    about the invalid setting is all that is added).  Without an override
    [query] then runs the Anthropic provider with the fallbacks of
    Anthropic: when Claude has a key and answers, [query] returns the
    adapted answer of Claude after that one call, the backend not being
    asked; when Claude has no key, [query] goes on with the backend. *)
Theorem invalid_setting_defaults_to_anthropic
  (E : @Env BackendResult) params overrideService s :
  (forall v, VITE_AI_SERVICE E = Some v -> v ∉ validTypes) ->
  getServiceType E s
  = (Ok anthropic, {| history := history s; warned := warned s ++ [VITE_AI_SERVICE E] |})
  /\ (query' E params overrideService s).1
     = (query' (withSetting (Some "anthropic") E) params overrideService s).1
  /\ history (query' E params overrideService s).2
     = history (query' (withSetting (Some "anthropic") E) params overrideService s).2
  /\ query' E params None s
     = try_catch (primary' E anthropic params) (fallbacks' E anthropic params)
                 {| history := history s; warned := warned s ++ [VITE_AI_SERVICE E] |}
  /\ (forall claudeResult,
        claudeAvailable E = true ->
        claudeService E (history s) (message params) (claudeDocument params)
        = Some claudeResult ->
        query' E params None s
        = (Ok (adaptAnthropicResponse claudeResult (documentUrlOf params)
                 (input_tokens (usage claudeResult))
                 (output_tokens (usage claudeResult))),
           {| history := history s
                         ++ [Call_claude (message params) (claudeDocument params)];
              warned := warned s ++ [VITE_AI_SERVICE E] |}))
  /\ (claudeAvailable E = false ->
      query' E params None s
      = queryBackend' E params
          {| history := history s; warned := warned s ++ [VITE_AI_SERVICE E] |}).
Proof.
  intros Hinvalid.
  assert (Hnone : VITE_AI_SERVICE E ≫= ofString = None).
  { destruct (VITE_AI_SERVICE E) as [v|] eqn:Hv; [|reflexivity].
    cbn. apply ofString_valid, Hinvalid. reflexivity. }
  assert (Hget : getServiceType E s
                 = (Ok anthropic,
                    {| history := history s;
                       warned := warned s ++ [VITE_AI_SERVICE E] |})).
  { unfold getServiceType. now rewrite Hnone. }
  assert (Hruns : query' E params None s
                  = try_catch (primary' E anthropic params)
                              (fallbacks' E anthropic params)
                              {| history := history s;
                                 warned := warned s ++ [VITE_AI_SERVICE E] |})
    by exact (query_runs E params None s anthropic _ Hget).
  split; [exact Hget|].
  split; [|split; [|split; [exact Hruns|split]]].
  - destruct overrideService as [serviceType|]; [reflexivity|].
    rewrite Hruns.
    rewrite (query_runs (withSetting (Some "anthropic") E) params None s anthropic s eq_refl).
    apply (history_only_try_catch
             (primary' E anthropic params) (fallbacks' E anthropic params)
             (history_only_primary E anthropic params)
             (history_only_fallbacks E anthropic params)).
    reflexivity.
  - destruct overrideService as [serviceType|]; [reflexivity|].
    rewrite Hruns.
    rewrite (query_runs (withSetting (Some "anthropic") E) params None s anthropic s eq_refl).
    apply (history_only_try_catch
             (primary' E anthropic params) (fallbacks' E anthropic params)
             (history_only_primary E anthropic params)
             (history_only_fallbacks E anthropic params)).
    reflexivity.
  - intros claudeResult Havailable Hanswer. rewrite Hruns.
    unfold try_catch, primary, queryAnthropic. rewrite Havailable.
    unfold bind, ask. cbn [history warned]. rewrite Hanswer. reflexivity.
  - intros Hnokey. rewrite Hruns.
    unfold try_catch, primary, queryAnthropic, throw. rewrite Hnokey.
    reflexivity.
Qed.

End SwitcherFacts.

Section SwitcherWitnesses.

Import Switcher Examples.

(** C1 at work.  With ChatPDF configured and the backend service down,
    Claude answers and the backend is not asked again; with Claude
    configured and no API key, the backend answers and Claude is not asked
    at all. *)
Lemma anthropic_fallback_then_no_backend_witness :
  query adaptBackend adaptChatPDF adaptAnthropic mockAnthropic backendDown ageQuery None
        initial
  = (Ok "anthropic: Adults of 18 to 65 years.",
     {| history := [Call_backend (request ageQuery (Some "chatpdf"));
                    Call_claude (message ageQuery) (claudeDocument ageQuery)];
        warned := [] |})
  /\ query adaptBackend adaptChatPDF adaptAnthropic mockAnthropic claudeWithoutKey
           ageQuery None initial
     = (Ok "backend: 18 to 65",
        {| history := [Call_backend (request ageQuery None)]; warned := [] |}).
Proof.
  split.
  - apply (proj1 (anthropic_fallback_then_no_backend
                    adaptBackend adaptChatPDF adaptAnthropic mockAnthropic
                    backendDown ageQuery None initial chatpdf initial eq_refl)
             {| history := [Call_backend (request ageQuery (Some "chatpdf"))];
                warned := [] |}
             claudeReply);
      [discriminate | reflexivity | reflexivity | reflexivity].
  - apply (proj2 (anthropic_fallback_then_no_backend
                    adaptBackend adaptChatPDF adaptAnthropic mockAnthropic
                    claudeWithoutKey ageQuery None initial anthropic initial eq_refl)
             initial);
      reflexivity.
Defined.

(** C9 at work: the setting "openai" is served as "anthropic" is, by
    Claude and without a call to the backend. *)
Lemma invalid_setting_defaults_to_anthropic_witness :
  getServiceType unknownSetting initial
  = (Ok anthropic, {| history := []; warned := [Some "openai"] |})
  /\ (query adaptBackend adaptChatPDF adaptAnthropic mockAnthropic unknownSetting
            ageQuery None initial).1
     = (query adaptBackend adaptChatPDF adaptAnthropic mockAnthropic
              (withSetting (Some "anthropic") unknownSetting) ageQuery None initial).1
  /\ history (query adaptBackend adaptChatPDF adaptAnthropic mockAnthropic unknownSetting
                    ageQuery None initial).2
     = history (query adaptBackend adaptChatPDF adaptAnthropic mockAnthropic
                      (withSetting (Some "anthropic") unknownSetting) ageQuery None
                      initial).2
  /\ query adaptBackend adaptChatPDF adaptAnthropic mockAnthropic unknownSetting
           ageQuery None initial
     = (Ok "anthropic: Adults of 18 to 65 years.",
        {| history := [Call_claude (message ageQuery) (claudeDocument ageQuery)];
           warned := [Some "openai"] |}).
Proof.
  destruct (invalid_setting_defaults_to_anthropic
              adaptBackend adaptChatPDF adaptAnthropic mockAnthropic
              unknownSetting ageQuery None initial)
    as [Hget [Hresult [Hcalls [_ [Hclaude _]]]]].
  { intros v Hv. injection Hv as <-. apply ofString_valid. reflexivity. }
  split; [exact Hget|]. split; [exact Hresult|]. split; [exact Hcalls|].
  exact (Hclaude claudeReply eq_refl eq_refl).
Defined.

End SwitcherWitnesses.

(* ===================================================================== *)
(** * Substrings *)
(* ===================================================================== *)

Section SubstringFacts.

Lemma append_nil_r (s : string) : (s ++ EmptyString)%string = s.
Proof.
  induction s as [|c s IH]; [reflexivity|]. rewrite append_cons. now rewrite IH.
Qed.

Lemma occurs_in_refl s : occurs_in s s.
Proof.
  exists EmptyString, EmptyString. rewrite append_nil_r. reflexivity.
Qed.

Lemma occurs_in_trans x y z : occurs_in x y -> occurs_in y z -> occurs_in x z.
Proof.
  intros [b1 [a1 ->]] [b2 [a2 ->]].
  exists (b2 ++ b1)%string, (a1 ++ a2)%string.
  now rewrite !append_assoc.
Qed.

Lemma occurs_in_empty s : occurs_in EmptyString s.
Proof. exists EmptyString, s. reflexivity. Qed.

Lemma occurs_in_cons x c s : occurs_in x s -> occurs_in x (String c s).
Proof. intros [b [a ->]]. exists (String c b), a. reflexivity. Qed.

Lemma substring_prefix s : forall m, exists a, s = (String.substring 0 m s ++ a)%string.
Proof.
  induction s as [|c s IH]; intros m.
  - exists EmptyString. now destruct m.
  - destruct m as [|m]; cbn [String.substring].
    + exists (String c s). reflexivity.
    + destruct (IH m) as [a Ha]. exists a. rewrite append_cons. now f_equal.
Qed.

(** A piece cut out of a string stands in it. *)
Lemma substring_occurs n : forall s m, occurs_in (String.substring n m s) s.
Proof.
  induction n as [|n IH]; intros s m.
  - destruct (substring_prefix s m) as [a Ha]. exists EmptyString, a. exact Ha.
  - destruct s as [|c s]; cbn [String.substring].
    + apply occurs_in_refl.
    + apply occurs_in_cons, IH.
Qed.

(** It is no longer than asked. *)
Lemma length_substring n : forall s m, (String.length (String.substring n m s) <= m)%nat.
Proof.
  induction n as [|n IH]; intros s m.
  - revert m. induction s as [|c s IHs]; intros m.
    + destruct m; cbn; lia.
    + destruct m as [|m]; cbn [String.substring String.length]; [lia|].
      specialize (IHs m). lia.
  - destruct s as [|c s]; cbn [String.substring String.length]; [lia | apply IH].
Qed.

Lemma JS_substring_occurs s a b : occurs_in (JS.substring s a b) s.
Proof. unfold JS.substring. apply substring_occurs. Qed.

Lemma JS_substring_length s a b : JS.len (JS.substring s a b) <= Z.abs (b - a).
Proof.
  unfold JS.substring, JS.len.
  pose proof (length_substring
                (Z.to_nat (Z.min (Z.min (Z.max 0 a) (Z.of_nat (String.length s)))
                                 (Z.min (Z.max 0 b) (Z.of_nat (String.length s)))))
                s
                (Z.to_nat (Z.max (Z.min (Z.max 0 a) (Z.of_nat (String.length s)))
                                 (Z.min (Z.max 0 b) (Z.of_nat (String.length s)))
                          - Z.min (Z.min (Z.max 0 a) (Z.of_nat (String.length s)))
                                  (Z.min (Z.max 0 b) (Z.of_nat (String.length s))))))
    as Hlen.
  lia.
Qed.

Lemma index_from_bounds w s : forall i,
  JS.index_from i w s = -1
  \/ i <= JS.index_from i w s <= i + JS.len s.
Proof.
  induction s as [|c s IH]; intros i; cbn [JS.index_from].
  - destruct (String.prefix w EmptyString); [right | left; reflexivity].
    unfold JS.len. cbn. lia.
  - destruct (String.prefix w (String c s)).
    + right. unfold JS.len. cbn [String.length]. lia.
    + destruct (IH (i + 1)) as [H | H]; [now left | right].
      unfold JS.len in *. cbn [String.length]. lia.
Qed.

Lemma indexOf_bounds s w : JS.indexOf s w = -1 \/ 0 <= JS.indexOf s w <= JS.len s.
Proof. apply (index_from_bounds w s 0). Qed.

Lemma toLowerCase_length s : JS.len (JS.toLowerCase s) = JS.len s.
Proof.
  unfold JS.len. f_equal.
  induction s as [|c s IH]; cbn [JS.toLowerCase String.length]; [reflexivity | now rewrite IH].
Qed.

Lemma trimStart_occurs s : occurs_in (JS.trimStart s) s.
Proof.
  induction s as [|c s IH]; cbn [JS.trimStart]; [apply occurs_in_refl|].
  destruct (JS.is_space c); [apply occurs_in_cons, IH | apply occurs_in_refl].
Qed.

Lemma trimEnd_prefix s : exists a, s = (JS.trimEnd s ++ a)%string.
Proof.
  induction s as [|c s [a Ha]]; cbn [JS.trimEnd]; [now exists EmptyString|].
  destruct (JS.trimEnd s) as [|d r] eqn:Hend.
  - destruct (JS.is_space c).
    + exists (String c s). reflexivity.
    + exists a. cbn in Ha. rewrite append_cons. cbn. now f_equal.
  - exists a. rewrite append_cons. now f_equal.
Qed.

Lemma trim_occurs s : occurs_in (JS.trim s) s.
Proof.
  unfold JS.trim. eapply occurs_in_trans; [|apply trimStart_occurs].
  destruct (trimEnd_prefix (JS.trimStart s)) as [a Ha].
  exists EmptyString, a. exact Ha.
Qed.

Lemma occurs_in_length x s : occurs_in x s -> JS.len x <= JS.len s.
Proof.
  intros [b [a ->]]. unfold JS.len. rewrite !length_append. lia.
Qed.

Lemma trim_length s : JS.len (JS.trim s) <= JS.len s.
Proof. apply occurs_in_length, trim_occurs. Qed.

End SubstringFacts.

(* ===================================================================== *)
(** * More on the keyword fallback *)
(* ===================================================================== *)

Section FallbackFacts.

Import SourceExtraction Pipeline.

Lemma keywordStep_within content pageText st word :
  JS.len pageText = JS.len content ->
  excerpts_within content st ->
  excerpts_within content (keywordStep content pageText st word).
Proof.
  intros Hlen Hst. destruct st as [[bestMatch bestContext] score].
  unfold keywordStep.
  destruct (Z.eqb_spec (JS.indexOf pageText word) (-1)) as [_ | Hfound]; [exact Hst|].
  destruct (indexOf_bounds pageText word) as [Hnone | Hidx]; [contradiction|].
  rewrite Hlen in Hidx.
  destruct (JS.len bestMatch <? _); [|exact Hst].
  unfold excerpts_within. cbn [fst snd].
  repeat split; try apply JS_substring_occurs.
  - etransitivity; [apply JS_substring_length|]. lia.
  - etransitivity; [apply JS_substring_length|]. lia.
Qed.

Lemma keywordLoop_within content pageText words :
  JS.len pageText = JS.len content ->
  forall st, excerpts_within content st ->
             excerpts_within content (fold_left (keywordStep content pageText) words st).
Proof.
  intros Hlen. induction words as [|word rest IH]; intros st Hst; cbn [fold_left].
  - exact Hst.
  - apply IH, keywordStep_within; assumption.
Qed.

Lemma fallbackSource_cites originalQuery pt : cites (fallbackSource originalQuery pt) pt.
Proof.
  unfold fallbackSource.
  pose proof (keywordLoop_within (content pt) (JS.toLowerCase (content pt))
                (queryWordsOf originalQuery) (toLowerCase_length (content pt))
                (EmptyString, EmptyString, 0)) as Hloop.
  destruct (fold_left _ _ _) as [[bestMatch bestContext] score].
  assert (Hstart : excerpts_within (content pt) (EmptyString, EmptyString, 0)).
  { unfold excerpts_within. cbn [fst snd].
    repeat split; try apply occurs_in_empty; unfold JS.len; cbn [String.length]; lia. }
  specialize (Hloop Hstart). destruct Hloop as [Hm [Hml [Hc Hcl]]]. cbn [fst snd] in *.
  assert (Hmatch : occurs_in (if score =? 0 then JS.substring (content pt) 0 300
                              else bestMatch) (content pt)
                   /\ JS.len (if score =? 0 then JS.substring (content pt) 0 300
                              else bestMatch) <= 400).
  { destruct (score =? 0); [|now split].
    split; [apply JS_substring_occurs|].
    etransitivity; [apply JS_substring_length|]. lia. }
  assert (Hcontext : occurs_in (if score =? 0 then JS.substring (content pt) 0 500
                                else bestContext) (content pt)
                     /\ JS.len (if score =? 0 then JS.substring (content pt) 0 500
                                else bestContext) <= 600).
  { destruct (score =? 0); [|now split].
    split; [apply JS_substring_occurs|].
    etransitivity; [apply JS_substring_length|]. lia. }
  destruct (score =? 0); cbn [page exactText context];
    (unfold cites; cbn [page exactText context];
     destruct Hmatch as [Hm1 Hm2], Hcontext as [Hc1 Hc2];
     repeat split;
     first [ eapply occurs_in_trans; [apply trim_occurs | eassumption]
           | etransitivity; [apply trim_length | eassumption] ]).
Qed.

(** X2.  The keyword fallback gives exactly one citation for every page
    it is handed, in the order of the pages and under the page's number.
    The quoted text of a citation stands in the text of its page as it is
    written and is at most 400 characters long; its context stands in the
    page too and is at most 600 characters long. *)
Theorem fallback_quotes_the_page originalQuery chatPDFResponse pageTexts :
  Forall2 cites
          (sources (createIntelligentFallback originalQuery chatPDFResponse pageTexts))
          pageTexts.
Proof.
  rewrite createIntelligentFallback_sources.
  induction pageTexts as [|pt rest IH]; cbn [map]; constructor;
    [apply fallbackSource_cites | exact IH].
Qed.

Lemma weights_from (l : list PageReference) : forall acc,
  (acc <= fold_left (fun a s => Qplus a (weight (relevance s))) l acc)%Q.
Proof.
  induction l as [|s l IH]; intros acc; cbn [fold_left].
  - lra.
  - specialize (IH (acc + weight (relevance s))%Q).
    assert (Hw : (1 # 10 <= weight (relevance s))%Q)
      by (destruct (relevance s); cbn; lra).
    lra.
Qed.

Lemma cap_bounds x : (1 # 10 <= x)%Q -> (1 # 10 <= cap x <= 8 # 10)%Q.
Proof.
  intros Hx. unfold cap. destruct (Qle_bool (8 # 10) x) eqn:Hcap.
  - lra.
  - assert (~ (8 # 10 <= x)%Q) by (rewrite <- Qle_bool_iff, Hcap; discriminate).
    lra.
Qed.

(** X3.  The confidence of the keyword fallback lies between 0.1 and
    0.8, whatever the question and the pages. *)
Theorem fallback_confidence_bounds originalQuery chatPDFResponse pageTexts :
  (1 # 10
   <= confidence (createIntelligentFallback originalQuery chatPDFResponse pageTexts)
   <= 8 # 10)%Q.
Proof.
  unfold createIntelligentFallback. cbn [confidence].
  destruct (map (fallbackSource originalQuery) pageTexts) as [|s l] eqn:Hs.
  - lra.
  - apply cap_bounds. cbn [fold_left].
    pose proof (weights_from l ((0 # 1) + weight (relevance s))%Q) as Hsum.
    assert (Hw : (1 # 10 <= weight (relevance s))%Q)
      by (destruct (relevance s); cbn; lra).
    lra.
Qed.

End FallbackFacts.

(* ===================================================================== *)
(** * More on the extraction strategies *)
(* ===================================================================== *)

Section StrategyFacts.

Import PDFExtraction SourceExtraction Examples Pipeline.

Lemma splitLoop_length n text avgPageLength :
  forall currentPos, length (splitLoop n text avgPageLength currentPos) = n.
Proof.
  induction n as [|n IH]; intros currentPos; cbn [splitLoop length];
    [reflexivity | now rewrite IH].
Qed.

Lemma splitLoop_occurs n text avgPageLength :
  forall currentPos,
    Forall (fun piece => occurs_in piece text)
           (splitLoop n text avgPageLength currentPos).
Proof.
  induction n as [|n IH]; intros currentPos; cbn [splitLoop]; constructor.
  - eapply occurs_in_trans; [apply trim_occurs | apply JS_substring_occurs].
  - apply IH.
Qed.

Lemma splitTextIntoPages_length text totalPages :
  length (splitTextIntoPages text totalPages) = Z.to_nat totalPages.
Proof.
  unfold splitTextIntoPages. destruct (Z.leb_spec totalPages 0).
  - cbn. lia.
  - apply splitLoop_length.
Qed.

(** X4.  The text of a whole document is split into exactly as many
    pieces as the document has pages (none for a page count of zero or
    less), and every piece stands in the text as it is written. *)
Theorem splitTextIntoPages_pieces text totalPages :
  length (splitTextIntoPages text totalPages) = Z.to_nat totalPages
  /\ Forall (fun piece => occurs_in piece text) (splitTextIntoPages text totalPages).
Proof.
  split; [apply splitTextIntoPages_length|].
  unfold splitTextIntoPages. destruct (totalPages <=? 0).
  - constructor.
  - apply splitLoop_occurs.
Qed.

Lemma at_index_outside pages numPages pageNum :
  length pages = Z.to_nat numPages ->
  inRange numPages pageNum = false ->
  at_index pages (pageNum - 1) = None.
Proof.
  intros Hlen Hout. unfold at_index, inRange in *.
  destruct (Z.ltb_spec (pageNum - 1) 0); [reflexivity|].
  apply lookup_ge_None. lia.
Qed.


(** X5.  The pdf-parse strategy never throws, leaves the cache alone and
    returns one entry for every requested page, in the order of the
    request.  When the pdf-parse module does not load, nothing is fetched
    and every page gets the placeholder.  When it loads, the document is
    fetched once; if it was parsed, a requested page outside
    [1, numpages] gets the text "Page N content not available", and if
    the fetch or the parser failed, every page gets the placeholder. *)
Theorem extractRealPDFText_entries W pdfUrl pageNumbers s :
  exists pages s',
    extractRealPDFText W pdfUrl pageNumbers s = (Ok pages, s')
    /\ map pnum pages = pageNumbers
    /\ textCache s' = textCache s
    /\ (pdfParseModule W (trace s) = false ->
        trace s' = trace s
        /\ pages = fallbackPDFExtraction pdfUrl pageNumbers)
    /\ (pdfParseModule W (trace s) = true ->
        trace s' = (trace s ++ [Ev_fetch pdfUrl])%list
        /\ (forall text numpages,
              pdfParse W (trace s) pdfUrl = Some (text, numpages) ->
              Forall (fun pt => inRange numpages (pnum pt) = false ->
                                content pt = notAvailable (pnum pt)) pages)
        /\ (pdfParse W (trace s) pdfUrl = None ->
            pages = fallbackPDFExtraction pdfUrl pageNumbers)).
Proof.
  assert (Hfallback : map pnum (fallbackPDFExtraction pdfUrl pageNumbers) = pageNumbers).
  { unfold fallbackPDFExtraction. rewrite map_map. cbn. apply map_id. }
  unfold extractRealPDFText, try_catch, bind, importModule, call.
  destruct (pdfParseModule W (trace s)).
  - destruct (pdfParse W (trace s) pdfUrl) as [[text numpages]|] eqn:Hparse.
    + eexists. eexists. split; [reflexivity|].
      split; [rewrite map_map; cbn; apply map_id|].
      split; [reflexivity|]. split; [discriminate|]. intros _.
      split; [reflexivity|]. split; [|discriminate].
      intros text' numpages' Heq. injection Heq as <- <-.
      apply Forall_forall. intros pt Hpt Hout.
      apply list_elem_of_In, in_map_iff in Hpt as [pageNum [<- _]].
      cbn [pnum content fst snd] in *.
      rewrite (at_index_outside _ numpages pageNum
                 (splitTextIntoPages_length text numpages) Hout).
      reflexivity.
    + eexists. eexists. split; [reflexivity|]. split; [exact Hfallback|].
      split; [reflexivity|]. split; [discriminate|]. intros _.
      split; [reflexivity|]. split; [discriminate | reflexivity].
  - eexists. eexists. split; [reflexivity|]. split; [exact Hfallback|].
    split; [reflexivity|]. split; [|discriminate]. intros _.
    split; reflexivity.
Qed.



(** X7.  For a document without address, and nothing in the cache, the
    extractor calls nothing outside, leaves the cache as it is and returns
    the placeholder for every requested page. *)
Theorem no_address_gives_placeholders W document pageNumbers s :
  pdfUrlOf document = None ->
  textCache s !! id document = None ->
  exists s',
    extractTextFromPages W document pageNumbers s
    = (Ok (fallbackPDFExtraction EmptyString pageNumbers), s')
    /\ trace s' = trace s
    /\ textCache s' = textCache s.
Proof.
  intros Hurl Hcache. exists s.
  split; [|split; reflexivity].
  unfold extractTextFromPages, try_catch, bind, getCache, attempt, extractViaPDFjs.
  unfold pdfUrlOf in Hurl. rewrite Hcache.
  destruct (JS.or_else (url document) (file_url document)) as [pdfUrl|];
    [|reflexivity].
  destruct (JS.truthy pdfUrl) eqn:Htruthy; [discriminate Hurl | reflexivity].
Qed.

Lemma no_address_gives_placeholders_witness :
  exists s',
    extractTextFromPages readsThreePages noAddress [2; 9] fresh
    = (Ok (fallbackPDFExtraction EmptyString [2; 9]), s')
    /\ trace s' = trace fresh
    /\ textCache s' = textCache fresh.
Proof.
  apply (no_address_gives_placeholders readsThreePages noAddress [2; 9] fresh);
    reflexivity.
Defined.

End StrategyFacts.

(* ===================================================================== *)
(** * More on the pipeline *)
(* ===================================================================== *)

Section MorePipelineFacts.

Import PDFExtraction SourceExtraction Examples Pipeline.

(** [extractSources], for an answer whose references give the page range
    [pages]. *)
Lemma extractSources_steps W originalQuery chatPDFResponse document chatPDFReferences
  p ps pages s :
  referencedPages chatPDFResponse chatPDFReferences = p :: ps ->
  expandedPages (arrayLimit W) p ps = Some pages ->
  extractSources W originalQuery chatPDFResponse document chatPDFReferences s
  = try_catch
      (pageTexts <- extractTextFromPages W document pages;;
       reply <- findExactSources W originalQuery chatPDFResponse pageTexts;;
       match reply with
       | Typed result => ret (attachLinks document result)
       | Untyped => throw
       end)%M
      (ret emptyResult) s.
Proof.
  intros Hrefs Hrange. unfold extractSources. rewrite Hrefs, Hrange.
  unfold try_catch, bind, attachLinks.
  destruct (extractTextFromPages _ _ _ s) as [[pageTexts|] s1]; [|reflexivity].
  destruct (findExactSources _ _ _ _ s1) as [[[result|]|] s2]; try reflexivity.
  destruct (JS.or_else _ _) as [pdfUrl|]; [|reflexivity].
  destruct (JS.truthy pdfUrl); reflexivity.
Qed.

Lemma le_refl n : JS.le n n.
Proof. destruct n; cbn; [lia | exact I]. Qed.

Lemma min_spec a b : (JS.min a b = a /\ JS.le a b) \/ (JS.min a b = b /\ JS.le b a).
Proof.
  destruct a as [x|], b as [y|]; cbn; try (left; split; [reflexivity | exact I]);
    try (right; split; [reflexivity | exact I]).
  destruct (Z.min_spec x y) as [[Hlt ->] | [Hle ->]]; [left | right]; split;
    solve [reflexivity | lia].
Qed.

Lemma max_spec a b : (JS.max a b = a /\ JS.le b a) \/ (JS.max a b = b /\ JS.le a b).
Proof.
  destruct a as [x|], b as [y|]; cbn; try (left; split; [reflexivity | exact I]);
    try (right; split; [reflexivity | exact I]).
  destruct (Z.max_spec x y) as [[Hlt ->] | [Hle ->]]; [right | left]; split;
    solve [reflexivity | lia].
Qed.

Lemma le_trans a b c : JS.le a b -> JS.le b c -> JS.le a c.
Proof. destruct a, b, c; cbn; try tauto; lia. Qed.

Lemma fold_min_spec p ps :
  fold_right JS.min p ps ∈ p :: ps
  /\ Forall (fun a => JS.le (fold_right JS.min p ps) a) (p :: ps).
Proof.
  induction ps as [|a ps [Hin Hall]]; cbn [fold_right].
  - split; [apply list_elem_of_here | repeat constructor; apply le_refl].
  - inversion Hall as [|? ? Hp Hps]; subst.
    destruct (min_spec a (fold_right JS.min p ps)) as [[-> Hle] | [-> Hle]].
    + split; [apply list_elem_of_further, list_elem_of_here|].
      constructor; [now apply (le_trans _ _ _ Hle)|].
      constructor; [apply le_refl|].
      eapply Forall_impl; [exact Hps|]. cbn. intros x. now apply le_trans.
    + split.
      * apply elem_of_cons in Hin as [Hin | Hin];
          [rewrite Hin; apply list_elem_of_here
          | apply list_elem_of_further, list_elem_of_further, Hin].
      * constructor; [exact Hp|]. constructor; [exact Hle | exact Hps].
Qed.

Lemma fold_max_spec p ps :
  fold_right JS.max p ps ∈ p :: ps
  /\ Forall (fun a => JS.le a (fold_right JS.max p ps)) (p :: ps).
Proof.
  induction ps as [|a ps [Hin Hall]]; cbn [fold_right].
  - split; [apply list_elem_of_here | repeat constructor; apply le_refl].
  - inversion Hall as [|? ? Hp Hps]; subst.
    destruct (max_spec a (fold_right JS.max p ps)) as [[-> Hle] | [-> Hle]].
    + split; [apply list_elem_of_further, list_elem_of_here|].
      constructor; [now apply (le_trans _ _ _ Hp)|].
      constructor; [apply le_refl|].
      eapply Forall_impl; [exact Hps|]. cbn. intros x Hx. now apply (le_trans _ _ _ Hx).
    + split.
      * apply elem_of_cons in Hin as [Hin | Hin];
          [rewrite Hin; apply list_elem_of_here
          | apply list_elem_of_further, list_elem_of_further, Hin].
      * constructor; [exact Hp|]. constructor; [exact Hle | exact Hps].
Qed.

(** With a reference that is [Infinity] or [2 ^ 53 - 1] or more, the page
    range cannot be built. *)
Lemma expandedPages_unsafe limit p ps :
  Exists unsafe (p :: ps) -> expandedPages limit p ps = None.
Proof.
  intros Hunsafe. apply Exists_exists in Hunsafe as [r [Hr Hbig]].
  destruct (fold_max_spec p ps) as [_ Hhigh].
  rewrite Forall_forall in Hhigh. specialize (Hhigh r Hr).
  unfold expandedPages.
  destruct (fold_right JS.min p ps) as [lowest|]; [|reflexivity].
  destruct (fold_right JS.max p ps) as [highest|]; [|reflexivity].
  destruct Hbig as [-> | [z [-> Hz]]]; cbn in Hhigh; [contradiction|].
  destruct (Z.ltb_spec (highest + 1) (2 ^ 53)) as [Hlt | _]; [lia | reflexivity].
Qed.

(** X8.  The pages whose text the pipeline asks for.  When the range can
    be built, it holds the pages from one before the lowest reference to
    one after the highest, never below page 1: a page is asked for
    exactly when it is at least 1, at least one less than some reference
    and at most one more than some reference.  The range can be built
    when every reference is a page number below the number of elements an
    array can hold, and it cannot when some reference is Infinity or
    2^53 - 1 or more. *)
Theorem expandedPages_margin limit p ps :
  (forall pages,
      expandedPages limit p ps = Some pages ->
      forall n,
        n ∈ pages
        <-> 1 <= n
            /\ (exists a, JS.Finite a ∈ p :: ps /\ a - 1 <= n)
            /\ (exists b, JS.Finite b ∈ p :: ps /\ n <= b + 1))
  /\ (Forall (small limit) (p :: ps) -> is_Some (expandedPages limit p ps))
  /\ (Exists unsafe (p :: ps) -> expandedPages limit p ps = None).
Proof.
  destruct (fold_min_spec p ps) as [Hmin_in Hmin_low].
  destruct (fold_max_spec p ps) as [Hmax_in Hmax_high].
  rewrite Forall_forall in Hmin_low, Hmax_high.
  split; [|split; [|apply expandedPages_unsafe]].
  - intros pages Hpages n. unfold expandedPages in Hpages.
    destruct (fold_right JS.min p ps) as [lowest|]; [|discriminate Hpages].
    destruct (fold_right JS.max p ps) as [highest|]; [|discriminate Hpages].
    destruct (_ && _); [|discriminate Hpages].
    injection Hpages as <-. rewrite elem_of_seqZ. split.
    + intros Hn. split; [lia|]. split.
      * exists lowest. split; [exact Hmin_in | lia].
      * exists highest. split; [exact Hmax_in | lia].
    + intros [Hone [[a [Ha Han]] [b [Hb Hnb]]]].
      specialize (Hmin_low _ Ha). specialize (Hmax_high _ Hb). cbn in *. lia.
  - intros Hsmall. rewrite Forall_forall in Hsmall.
    destruct (Hsmall _ Hmin_in) as [lowest [Hlowest _]].
    destruct (Hsmall _ Hmax_in) as [highest [Hhighest [Hlimit Hbound]]].
    unfold expandedPages. rewrite Hlowest, Hhighest.
    assert (H32 : 2 ^ 32 = 4294967296) by reflexivity.
    assert (H53 : 2 ^ 53 = 9007199254740992) by reflexivity.
    rewrite H32 in *. rewrite H53.
    destruct (Z.ltb_spec (highest + 1) 9007199254740992); [|lia].
    destruct (Z.leb_spec (highest + 1 - Z.max 1 (lowest - 1) + 1)
                (Z.max 0 (Z.min limit (4294967296 - 1)))); [|lia].
    cbn [andb]. eexists. reflexivity.
Qed.

Lemma withHighlight_linked pdfUrl source : linked pdfUrl (withHighlight pdfUrl source).
Proof. reflexivity. Qed.

Lemma attachLinks_linked document pdfUrl result :
  pdfUrlOf document = Some pdfUrl ->
  Forall (linked pdfUrl) (sources (attachLinks document result)).
Proof.
  unfold pdfUrlOf, attachLinks. intros Hurl.
  destruct (JS.or_else _ _) as [u|]; [|discriminate Hurl].
  destruct (JS.truthy u); [|discriminate Hurl].
  injection Hurl as ->. cbn [sources].
  apply Forall_forall. intros src Hsrc.
  apply list_elem_of_In, in_map_iff in Hsrc as [src0 [<- _]].
  apply withHighlight_linked.
Qed.

(** X9.  When the document has an address, every citation the pipeline
    returns carries the highlight link built from that address, its own
    page and its own text, whichever matcher produced it. *)
Theorem extractSources_links_every_source
  W originalQuery chatPDFResponse document chatPDFReferences s pdfUrl result s' :
  pdfUrlOf document = Some pdfUrl ->
  extractSources W originalQuery chatPDFResponse document chatPDFReferences s
  = (Ok result, s') ->
  Forall (linked pdfUrl) (sources result).
Proof.
  intros Hurl Hrun.
  destruct (referencedPages chatPDFResponse chatPDFReferences) as [|p ps] eqn:Hrefs.
  - unfold extractSources in Hrun. rewrite Hrefs in Hrun. cbn in Hrun.
    injection Hrun as <- _. constructor.
  - destruct (expandedPages (arrayLimit W) p ps) as [pages|] eqn:Hrange.
    + rewrite (extractSources_steps _ _ _ _ _ p ps pages s Hrefs Hrange) in Hrun.
      unfold try_catch, bind in Hrun.
      destruct (extractTextFromPages _ _ _ s) as [[pageTexts|] s1];
        [|cbn in Hrun; injection Hrun as <- _; constructor].
      destruct (findExactSources _ _ _ _ s1) as [[[found|]|] s2];
        try (cbn in Hrun; injection Hrun as <- _; constructor).
      cbn in Hrun. injection Hrun as <- _.
      now apply attachLinks_linked.
    + unfold extractSources in Hrun. rewrite Hrefs, Hrange in Hrun.
      cbn in Hrun. injection Hrun as <- _. constructor.
Qed.

Lemma extractSources_links_every_source_witness :
  exists result s',
    extractSources readsThreePages "enrollment limit" "See [P2]." documentU None fresh
    = (Ok result, s')
    /\ length (sources result) = 3%nat
    /\ Forall (linked "u") (sources result).
Proof.
  eexists. eexists. split; [reflexivity|]. split; [reflexivity|].
  apply (extractSources_links_every_source readsThreePages "enrollment limit"
           "See [P2]." documentU None fresh "u" _ _ eq_refl eq_refl).
Defined.

(** X10.  [findExactSources] never throws, leaves the cache alone and
    tries its matchers in turn.  Either OpenAI is configured and answers,
    and its reply is returned after that one call; or OpenAI is silent
    (not configured, or failing), Groq is configured and answers on the
    pages cut to 800 characters, and its reply is returned; or both are
    silent and the keyword fallback is returned.  A model without key is
    never called, a model is called at most once, and Groq only after
    OpenAI. *)
Theorem findExactSources_ladder W originalQuery chatPDFResponse pageTexts s :
  exists reply s',
    findExactSources W originalQuery chatPDFResponse pageTexts s = (Ok reply, s')
    /\ textCache s' = textCache s
    /\ ((answers (openai W) (trace s) originalQuery chatPDFResponse pageTexts reply
         /\ trace s' = (trace s ++ [Ev_openai])%list)
        \/ (silent (openai W) (trace s) originalQuery chatPDFResponse pageTexts
            /\ answers (groq W) (trace s ++ asked (openai W) Ev_openai)%list
                       originalQuery chatPDFResponse (map truncated pageTexts) reply
            /\ trace s' = (trace s ++ asked (openai W) Ev_openai ++ [Ev_groq])%list)
        \/ (silent (openai W) (trace s) originalQuery chatPDFResponse pageTexts
            /\ silent (groq W) (trace s ++ asked (openai W) Ev_openai)%list
                      originalQuery chatPDFResponse (map truncated pageTexts)
            /\ reply
               = Typed (createIntelligentFallback originalQuery chatPDFResponse pageTexts)
            /\ trace s'
               = (trace s ++ asked (openai W) Ev_openai ++ asked (groq W) Ev_groq)%list)).
Proof.
  unfold findExactSources, bind, attempt, call, answers, silent, asked.
  destruct (openai W) as [gpt|].
  - destruct (gpt (trace s) originalQuery chatPDFResponse pageTexts) as [reply|] eqn:Hgpt.
    + eexists. eexists. split; [reflexivity|]. split; [reflexivity|].
      left. split; [eauto | reflexivity].
    + cbn [emit trace]. destruct (groq W) as [llama|].
      * destruct (llama _ originalQuery chatPDFResponse (map truncated pageTexts))
          as [reply|] eqn:Hllama.
        -- eexists. eexists. split; [reflexivity|]. split; [reflexivity|].
           right. left.
           split; [reflexivity|]. split; [eauto|].
           cbn. now rewrite <- app_assoc.
        -- eexists. eexists. split; [reflexivity|]. split; [reflexivity|].
           right. right.
           split; [reflexivity|]. split; [first [exact Hllama | reflexivity]|]. split; [reflexivity|].
           cbn. now rewrite <- app_assoc.
      * eexists. eexists. split; [reflexivity|]. split; [reflexivity|].
        right. right.
        split; [reflexivity|]. split; [exact I|]. split; [reflexivity|].
        cbn. reflexivity.
  - unfold ret. cbv beta iota.
    destruct (groq W) as [llama|].
    + rewrite app_nil_r.
      destruct (llama (trace s) originalQuery chatPDFResponse (map truncated pageTexts))
        as [reply|] eqn:Hllama.
      * eexists. eexists. split; [reflexivity|]. split; [reflexivity|].
        right. left.
        split; [exact I|]. split; [eauto | reflexivity].
      * eexists. eexists. split; [reflexivity|]. split; [reflexivity|].
        right. right.
        split; [exact I|]. split; [first [exact Hllama | reflexivity]|]. split; [reflexivity|].
        reflexivity.
    + eexists. eexists. split; [reflexivity|]. split; [reflexivity|].
      right. right.
      split; [exact I|]. split; [exact I|]. split; [reflexivity|].
      cbn. now rewrite app_nil_r.
Qed.

Lemma matchAll_from_no_bracket prefix rest :
  JS.all_chars no_bracket prefix ->
  matchAll_from 0 (prefix ++ rest) = matchAll_from 0 rest.
Proof.
  induction prefix as [|c prefix IH]; intros Hall; [reflexivity|].
  inversion Hall as [|? ? Hc Hrest]; subst.
  rewrite append_cons.
  change (matchAll_from 0 (String c (prefix ++ rest)))
    with (matchAll (String c (prefix ++ rest))).
  rewrite matchAll_other.
  - apply IH, Hrest.
  - unfold no_bracket in Hc. now destruct (Ascii.eqb c "[").
Qed.

(** X11.  Text without an opening bracket holds no page reference: put
    before an answer it leaves the parsed references as they are, and an
    answer made of such text only, with no reference from the provider,
    gives the empty result without any outside call. *)
Theorem text_without_bracket_cites_nothing prefix :
  JS.all_chars no_bracket prefix ->
  (forall rest, parsePageReferences (prefix ++ rest) = parsePageReferences rest)
  /\ parsePageReferences prefix = []
  /\ (forall W originalQuery document s,
        extractSources W originalQuery prefix document None s = (Ok emptyResult, s)).
Proof.
  intros Hall.
  assert (Hprefix : forall rest,
             parsePageReferences (prefix ++ rest) = parsePageReferences rest).
  { intros rest. unfold parsePageReferences, matchAll.
    now rewrite matchAll_from_no_bracket. }
  assert (Hnone : parsePageReferences prefix = []).
  { rewrite <- (append_nil_r prefix). rewrite Hprefix. reflexivity. }
  split; [exact Hprefix|]. split; [exact Hnone|].
  intros W originalQuery document s. unfold extractSources, referencedPages.
  rewrite Hnone. reflexivity.
Qed.

Lemma text_without_bracket_cites_nothing_witness :
  (forall rest,
      parsePageReferences ("The protocol (P3) says: " ++ rest) = parsePageReferences rest)
  /\ parsePageReferences "The protocol (P3) says: " = []
  /\ (forall W originalQuery document s,
        extractSources W originalQuery "The protocol (P3) says: " document None s
        = (Ok emptyResult, s)).
Proof.
  apply (text_without_bracket_cites_nothing "The protocol (P3) says: ").
  repeat constructor.
Defined.

(** X1.  [extractSources] never throws, and a failure within it is
    answered with the empty result.  When the page range cannot be built
    (a reference that is Infinity or 2^53 - 1 or more), the result is the
    empty one and nothing outside is called; when the matching step
    returns an untyped reply (a source without exact text), the result is
    the empty one after the calls made so far.  So it is for the answer
    "See [P9007199254740992]." *)
Theorem extractSources_catches_failures
  W originalQuery chatPDFResponse document chatPDFReferences s :
  (exists result s',
      extractSources W originalQuery chatPDFResponse document chatPDFReferences s
      = (Ok result, s'))
  /\ (Exists unsafe (referencedPages chatPDFResponse chatPDFReferences) ->
      exists s',
        extractSources W originalQuery chatPDFResponse document chatPDFReferences s
        = (Ok emptyResult, s')
        /\ trace s' = trace s /\ textCache s' = textCache s)
  /\ (forall p ps pages pageTexts s1 s2,
        referencedPages chatPDFResponse chatPDFReferences = p :: ps ->
        expandedPages (arrayLimit W) p ps = Some pages ->
        extractTextFromPages W document pages s = (Ok pageTexts, s1) ->
        findExactSources W originalQuery chatPDFResponse pageTexts s1
        = (Ok Untyped, s2) ->
        extractSources W originalQuery chatPDFResponse document chatPDFReferences s
        = (Ok emptyResult, s2))
  /\ (extractSources W originalQuery "See [P9007199254740992]." document None s).1
     = Ok emptyResult.
Proof.
  split; [|split; [|split]].
  - unfold extractSources, try_catch.
    destruct (_ s) as [[result|] s']; eauto.
  - intros Hunsafe. exists s. split; [|split; reflexivity].
    destruct (referencedPages chatPDFResponse chatPDFReferences) as [|p ps] eqn:Hrefs.
    + now apply Exists_nil in Hunsafe.
    + unfold extractSources. rewrite Hrefs, (expandedPages_unsafe _ p ps Hunsafe).
      reflexivity.
  - intros p ps pages pageTexts s1 s2 Hrefs Hrange Htexts Hreply.
    rewrite (extractSources_steps _ _ _ _ _ p ps pages s Hrefs Hrange).
    unfold try_catch, bind. rewrite Htexts, Hreply. reflexivity.
  - reflexivity.
Qed.

End MorePipelineFacts.

(* ===================================================================== *)
(** * More on the service switcher *)
(* ===================================================================== *)

Section MoreSwitcherFacts.

Import Switcher Calls.

Context {BackendResult UnifiedAIResponse : Type}.
Context (adaptBackendResponse : BackendResult -> UnifiedAIResponse).
Context (adaptChatPDFResponse : BackendResult -> string -> UnifiedAIResponse).
Context (adaptAnthropicResponse :
           ClaudeCitationsResponse -> string -> Z -> Z -> UnifiedAIResponse).
Context (createMockAnthropicResponse : string -> string -> string -> UnifiedAIResponse).

Local Abbreviation run E :=
  (query adaptBackendResponse adaptChatPDFResponse adaptAnthropicResponse
         createMockAnthropicResponse E).

Local Ltac split_services :=
  repeat match goal with
         | |- context [match ?x with _ => _ end] =>
             lazymatch x with
             | context [match _ with _ => _ end] => fail
             | _ => destruct x eqn:?
             end
         end.

Local Ltac close_calls :=
  cbn [history fst snd];
  eexists; split;
  [ repeat rewrite <- app_assoc;
    first [ reflexivity | symmetry; apply app_nil_r ]
  | cbn; repeat split; try lia; intros; try discriminate; try lia ].

(** X12.  One [query] makes at most three calls: it asks Claude at most
    once and the backend service at most twice, and when the backend is
    the selected provider it asks the backend once at most, the failed
    provider not being tried again. *)
Theorem query_calls_are_bounded (E : @Env BackendResult) params overrideService s :
  exists calls,
    history (run E params overrideService s).2 = (history s ++ calls)%list
    /\ (length calls <= 3)%nat
    /\ (count is_claude calls <= 1)%nat
    /\ (count is_backend calls <= 2)%nat
    /\ ((selected E overrideService s).1 = Ok backend ->
        (count is_backend calls <= 1)%nat).
Proof.
  unfold query, selected, getServiceType, bind, try_catch, ret.
  destruct overrideService as [serviceType|].
  - destruct serviceType;
      unfold primary, fallbacks, queryBackend, queryChatPDF, queryAnthropic,
        queryAnthropicMockup, bind, attempt, ask, throw, ret;
      cbn [AIServiceType_eqb negb history snd fst];
      split_services; close_calls.
  - destruct (VITE_AI_SERVICE E ≫= ofString) as [serviceType|];
      [destruct serviceType|];
      unfold primary, fallbacks, queryBackend, queryChatPDF, queryAnthropic,
        queryAnthropicMockup, bind, attempt, ask, throw, ret;
      cbn [AIServiceType_eqb negb history snd fst];
      split_services; close_calls.
Qed.

(** X13.  [query] fails only when neither the backend service nor
    Claude gave an answer: if it throws, some call to the backend service
    failed, and Claude had no key or some call to it failed. *)
Theorem query_fails_only_when_all_fail (E : @Env BackendResult) params overrideService s :
  (run E params overrideService s).1 = Throw ->
  (exists h request, backendService E h request = None)
  /\ (claudeAvailable E = false
      \/ exists h question document, claudeService E h question document = None).
Proof.
  unfold query, selected, getServiceType, bind, try_catch, ret.
  destruct overrideService as [serviceType|].
  - destruct serviceType;
      unfold primary, fallbacks, queryBackend, queryChatPDF, queryAnthropic,
        queryAnthropicMockup, bind, attempt, ask, throw, ret;
      cbn [AIServiceType_eqb negb history snd fst];
      split_services; cbn [fst]; intros Hthrow; try discriminate Hthrow;
      (split; [eauto | first [left; reflexivity | right; eauto]]).
  - destruct (VITE_AI_SERVICE E ≫= ofString) as [serviceType|];
      [destruct serviceType|];
      unfold primary, fallbacks, queryBackend, queryChatPDF, queryAnthropic,
        queryAnthropicMockup, bind, attempt, ask, throw, ret;
      cbn [AIServiceType_eqb negb history snd fst];
      split_services; cbn [fst]; intros Hthrow; try discriminate Hthrow;
      (split; [eauto | first [left; reflexivity | right; eauto]]).
Qed.

End MoreSwitcherFacts.

Section MoreSwitcherWitnesses.

Import Switcher Calls Examples.

Lemma query_fails_only_when_all_fail_witness :
  (exists h request, backendService allDown h request = None)
  /\ (claudeAvailable allDown = false
      \/ exists h question document, claudeService allDown h question document = None).
Proof.
  apply (query_fails_only_when_all_fail adaptBackend adaptChatPDF adaptAnthropic
           mockAnthropic allDown ageQuery None initial).
  reflexivity.
Defined.

End MoreSwitcherWitnesses.

(* ===================================================================== *)
(** * Sorting by a comparator *)
(* ===================================================================== *)

Section SortFacts.

Import SourcesPanel.

Context {A : Type} (cmp : A -> A -> Z) (R : relation A).
Context (cmp_R : forall x y, cmp x y <= 0 <-> R x y).
Context (R_total : forall x y, R x y \/ R y x).
Context (R_trans : forall x y z, R x y -> R y z -> R x z).

Lemma insert_by_perm x l : insert cmp x l ≡ₚ x :: l.
Proof.
  induction l as [|y l IH]; cbn [insert]; [reflexivity|].
  destruct (cmp x y <=? 0); [reflexivity|].
  rewrite IH. apply Permutation_swap.
Qed.

Lemma sort_by_perm l : sort cmp l ≡ₚ l.
Proof.
  induction l as [|x l IH]; cbn [sort fold_right]; [reflexivity|].
  fold (sort cmp l). now rewrite insert_by_perm, IH.
Qed.

Lemma insert_by_sorted x l :
  StronglySorted R l -> StronglySorted R (insert cmp x l).
Proof.
  induction l as [|y l IH]; intros Hl; cbn [insert].
  - repeat constructor.
  - apply StronglySorted_cons in Hl as [Hy Hl].
    destruct (Z.leb_spec (cmp x y) 0) as [Hxy | Hxy].
    + apply cmp_R in Hxy.
      apply StronglySorted_cons. split.
      * constructor; [exact Hxy|].
        eapply Forall_impl; [exact Hy|]. intros z. now apply R_trans.
      * apply StronglySorted_cons. now split.
    + assert (Hyx : R y x).
      { destruct (R_total x y) as [H | H]; [|exact H].
        apply cmp_R in H. lia. }
      apply StronglySorted_cons. split; [|apply IH, Hl].
      rewrite insert_by_perm. now constructor.
Qed.

Lemma sort_by_sorted l : StronglySorted R (sort cmp l).
Proof.
  induction l as [|x l IH]; cbn [sort fold_right]; [constructor|].
  apply insert_by_sorted, IH.
Qed.

(** A list in order is left as it is. *)
Lemma sort_by_fixed l : StronglySorted R l -> sort cmp l = l.
Proof.
  induction l as [|x l IH]; intros Hl; [reflexivity|].
  apply StronglySorted_cons in Hl as [Hx Hl].
  cbn [sort fold_right]. fold (sort cmp l). rewrite (IH Hl).
  destruct l as [|y l']; [reflexivity|].
  cbn [insert]. apply Forall_cons in Hx as [Hxy _].
  apply cmp_R in Hxy. apply Z.leb_le in Hxy. now rewrite Hxy.
Qed.

End SortFacts.

Section MorePanelFacts.

Import SourcesPanel.

(** X14.  The order of the panel is settled: a list that is already in
    the order of display is left exactly as it is, so sorting the
    displayed list again changes nothing. *)
Theorem sortedSources_is_settled :
  (forall sources, StronglySorted before sources -> sortedSources sources = sources)
  /\ (forall sources, sortedSources (sortedSources sources) = sortedSources sources).
Proof.
  assert (Hfixed : forall sources,
             StronglySorted before sources -> sortedSources sources = sources).
  { intros sources. unfold sortedSources.
    apply (sort_by_fixed compare before compare_before). }
  split; [exact Hfixed|].
  intros sources. apply Hfixed. unfold sortedSources. apply sort_sorted.
Qed.

End MorePanelFacts.

(* ===================================================================== *)
(** * findMatchingText *)
(* ===================================================================== *)

Section MatchingFacts.

Import PDFMatching.

Lemma byConfidence_not_below a b : byConfidence a b <= 0 <-> not_below a b.
Proof.
  unfold byConfidence, not_below. rewrite Qle_alt.
  destruct (confidence b ?= confidence a)%Q; split; intros H;
    first [lia | discriminate | congruence | (intros Hgt; discriminate Hgt)
          | (exfalso; now apply H)].
Qed.

Lemma not_below_total a b : not_below a b \/ not_below b a.
Proof.
  unfold not_below.
  destruct (Qlt_le_dec (confidence a) (confidence b)) as [H | H];
    [right; now apply Qlt_le_weak | left; exact H].
Qed.

Lemma not_below_trans a b c : not_below a b -> not_below b c -> not_below a c.
Proof. unfold not_below. intros Hab Hbc. eapply Qle_trans; eassumption. Qed.

End MatchingFacts.

(* ===================================================================== *)
(** * Occurrences *)
(* ===================================================================== *)

Section OccurrenceFacts.

Lemma prefix_app w : forall s, String.prefix w s = true -> exists post, s = (w ++ post)%string.
Proof.
  induction w as [|a w IH]; intros s Hs.
  - exists s. reflexivity.
  - destruct s as [|b s]; cbn [String.prefix] in Hs; [discriminate Hs|].
    destruct (ascii_dec a b) as [-> | _]; [|discriminate Hs].
    destruct (IH s Hs) as [post ->]. exists post. reflexivity.
Qed.

(** Where [indexOf] finds a word, the word stands. *)
Lemma index_from_found w s : forall i,
  0 <= i -> JS.index_from i w s <> -1 ->
  exists pre post,
    s = (pre ++ w ++ post)%string /\ JS.index_from i w s = i + JS.len pre.
Proof.
  induction s as [|c s IH]; intros i Hi Hfound; cbn [JS.index_from] in *.
  - destruct (String.prefix w EmptyString) eqn:Hp; [|contradiction].
    destruct (prefix_app _ _ Hp) as [post Hpost].
    exists EmptyString, post. split; [exact Hpost | unfold JS.len; cbn; lia].
  - destruct (String.prefix w (String c s)) eqn:Hp.
    + destruct (prefix_app _ _ Hp) as [post Hpost].
      exists EmptyString, post. split; [exact Hpost | unfold JS.len; cbn; lia].
    + destruct (IH (i + 1) ltac:(lia) Hfound) as [pre [post [-> Hidx]]].
      exists (String c pre), post. split; [reflexivity|].
      rewrite Hidx. unfold JS.len. cbn [String.length]. lia.
Qed.

Lemma substring_head w : forall post,
  String.substring 0 (String.length w) (w ++ post) = w.
Proof.
  induction w as [|c w IH]; intros post.
  - cbn. now destruct post.
  - rewrite append_cons. cbn [String.length String.substring]. now rewrite IH.
Qed.

Lemma substring_middle pre : forall w post,
  String.substring (String.length pre) (String.length w) (pre ++ w ++ post) = w.
Proof.
  induction pre as [|c pre IH]; intros w post.
  - exact (substring_head w post).
  - rewrite append_cons. cbn [String.length String.substring]. apply IH.
Qed.

Lemma JS_substring_middle pre w post :
  JS.substring (pre ++ w ++ post) (JS.len pre) (JS.len pre + JS.len w) = w.
Proof.
  unfold JS.substring, JS.len. rewrite !length_append.
  replace (Z.to_nat _) with (String.length pre) by lia.
  replace (Z.to_nat _) with (String.length w) by lia.
  apply substring_middle.
Qed.

Lemma toLowerCase_substring n : forall s m,
  JS.toLowerCase (String.substring n m s) = String.substring n m (JS.toLowerCase s).
Proof.
  induction n as [|n IH]; intros s m.
  - revert m. induction s as [|c s IHs]; intros m.
    + now destruct m.
    + destruct m as [|m]; cbn [String.substring JS.toLowerCase]; [reflexivity|].
      now rewrite IHs.
  - destruct s as [|c s]; cbn [String.substring JS.toLowerCase]; [reflexivity | apply IH].
Qed.

Lemma toLowerCase_JS_substring s a b :
  JS.toLowerCase (JS.substring s a b) = JS.substring (JS.toLowerCase s) a b.
Proof.
  unfold JS.substring. rewrite toLowerCase_length. apply toLowerCase_substring.
Qed.

Lemma length_substring_exact n : forall s m,
  (n + m <= String.length s)%nat -> String.length (String.substring n m s) = m.
Proof.
  induction n as [|n IH]; intros s m Hlen.
  - revert m Hlen. induction s as [|c s IHs]; intros m Hlen.
    + cbn in Hlen. now replace m with 0%nat by lia.
    + destruct m as [|m]; cbn [String.substring String.length]; [reflexivity|].
      f_equal. apply IHs. cbn [String.length] in Hlen. lia.
  - destruct s as [|c s]; cbn [String.length] in Hlen; [lia|].
    cbn [String.substring]. apply IH. lia.
Qed.

Lemma JS_substring_length_exact s a b :
  0 <= a <= b -> b <= JS.len s -> JS.len (JS.substring s a b) = b - a.
Proof.
  intros Hab Hb. unfold JS.substring, JS.len in *.
  rewrite length_substring_exact; lia.
Qed.

End OccurrenceFacts.

Section MatchResultFacts.

Import PDFMatching.

Lemma matchStep_count pageText lowerText contextLength words : forall st,
  (fold_left (matchStep pageText lowerText contextLength) words st).1.1
  = st.1.1 + Examples.keywordHits lowerText words.
Proof.
  induction words as [|word rest IH]; intros [[total bestMatch] bestContext].
  - cbn. lia.
  - cbn [fold_left Examples.keywordHits]. rewrite IH. unfold matchStep.
    destruct (JS.indexOf lowerText word =? -1); [cbn; lia|].
    destruct (JS.len bestContext <? _); cbn; lia.
Qed.

Lemma keywordHits_bounds pageText words :
  0 <= Examples.keywordHits pageText words <= Z.of_nat (length words).
Proof.
  induction words as [|word rest IH]; cbn [Examples.keywordHits length]; [lia|].
  destruct (JS.indexOf pageText word =? -1); lia.
Qed.

Lemma matchStep_occurs pageText lowerText contextLength words : forall st,
  occurs_in st.1.2 pageText /\ occurs_in st.2 pageText ->
  occurs_in (fold_left (matchStep pageText lowerText contextLength) words st).1.2 pageText
  /\ occurs_in (fold_left (matchStep pageText lowerText contextLength) words st).2 pageText.
Proof.
  induction words as [|word rest IH]; intros [[total bestMatch] bestContext] Hst;
    cbn [fold_left]; [exact Hst|].
  apply IH. unfold matchStep.
  destruct (JS.indexOf lowerText word =? -1); [exact Hst|].
  destruct (JS.len bestContext <? _); [|exact Hst].
  cbn [fst snd]. split; apply JS_substring_occurs.
Qed.

Lemma matchStep_found pageText contextLength all word st :
  0 <= contextLength -> 0 < JS.len word -> word ∈ all ->
  found_word all st ->
  found_word all (matchStep pageText (JS.toLowerCase pageText) contextLength st word).
Proof.
  intros Hcl Hword Hin Hst. destruct st as [[total bestMatch] bestContext].
  unfold matchStep.
  destruct (Z.eqb_spec (JS.indexOf (JS.toLowerCase pageText) word) (-1))
    as [_ | Hfound]; [exact Hst|].
  destruct (index_from_found word (JS.toLowerCase pageText) 0 ltac:(lia) Hfound)
    as [pre [post [Hlower Hidx]]].
  fold (JS.indexOf (JS.toLowerCase pageText) word) in Hidx.
  set (index := JS.indexOf (JS.toLowerCase pageText) word) in *.
  assert (Hfits : 0 <= index /\ index + JS.len word <= JS.len pageText).
  { rewrite <- (toLowerCase_length pageText), Hlower.
    unfold JS.len in *. rewrite !length_append. lia. }
  assert (Hcontext :
            JS.len word
            <= JS.len (JS.substring pageText
                         (Z.max 0 ((2 * index - contextLength) / 2))
                         (Z.min (JS.len pageText)
                                ((2 * (index + JS.len word) + contextLength) / 2)))).
  { assert ((2 * index - contextLength) / 2 <= index)
      by (apply Z.div_le_upper_bound; lia).
    assert (index + JS.len word <= (2 * (index + JS.len word) + contextLength) / 2)
      by (apply Z.div_le_lower_bound; lia).
    rewrite JS_substring_length_exact; lia. }
  assert (Hmatched :
            JS.toLowerCase (JS.substring pageText index (index + JS.len word)) = word).
  { rewrite toLowerCase_JS_substring, Hlower.
    replace index with (JS.len pre) by lia.
    apply JS_substring_middle. }
  destruct (Z.ltb_spec (JS.len bestContext)
              (JS.len (JS.substring pageText
                         (Z.max 0 ((2 * index - contextLength) / 2))
                         (Z.min (JS.len pageText)
                                ((2 * (index + JS.len word) + contextLength) / 2)))))
    as [Hlonger | Hshorter].
  - right. cbn [fst snd]. rewrite Hmatched.
    destruct Hst as [[Hz _] | [Hpos _]]; cbn [fst snd] in *; repeat split; try lia;
      exact Hin.
  - destruct Hst as [[Hz [_ Hempty]] | [Hpos [Hctx Hbest]]]; cbn [fst snd] in *.
    + subst bestContext. change (JS.len EmptyString) with 0 in Hshorter. lia.
    + right. cbn [fst snd]. repeat split; try lia; assumption.
Qed.

Lemma matchLoop_found pageText contextLength all words :
  0 <= contextLength ->
  Forall (fun word => 0 < JS.len word /\ word ∈ all) words ->
  forall st, found_word all st ->
             found_word all
               (fold_left (matchStep pageText (JS.toLowerCase pageText) contextLength)
                          words st).
Proof.
  intros Hcl Hwords. induction Hwords as [|word rest [Hlen Hin] _ IH]; intros st Hst;
    cbn [fold_left]; [exact Hst|].
  apply IH, matchStep_found; assumption.
Qed.

Lemma wordsOf_long searchQuery :
  Forall (fun word => 0 < JS.len word /\ word ∈ wordsOf searchQuery)
         (wordsOf searchQuery).
Proof.
  apply Forall_forall. intros word Hword. split; [|exact Hword].
  unfold wordsOf in Hword. apply list_elem_of_filter in Hword as [Hlong _].
  apply Is_true_true, Z.ltb_lt in Hlong. lia.
Qed.

Lemma pageMatch_reports searchQuery contextLength page r :
  pageMatch searchQuery contextLength page = Some r ->
  reports searchQuery contextLength page r.
Proof.
  unfold pageMatch. intros Hr.
  pose proof (matchStep_count (PDFExtraction.text page)
                (JS.toLowerCase (PDFExtraction.text page)) contextLength
                (wordsOf searchQuery) (0, EmptyString, EmptyString)) as Hcount.
  pose proof (keywordHits_bounds (JS.toLowerCase (PDFExtraction.text page))
                (wordsOf searchQuery)) as Hbounds.
  pose proof (matchStep_occurs (PDFExtraction.text page)
                (JS.toLowerCase (PDFExtraction.text page)) contextLength
                (wordsOf searchQuery) (0, EmptyString, EmptyString)
                (conj (occurs_in_empty _) (occurs_in_empty _))) as Hoccurs.
  pose proof (fun Hcl => matchLoop_found (PDFExtraction.text page) contextLength
                (wordsOf searchQuery) (wordsOf searchQuery) Hcl
                (wordsOf_long searchQuery) (0, EmptyString, EmptyString)
                (or_introl (conj eq_refl (conj eq_refl eq_refl)))) as Hword.
  destruct (fold_left _ _ _) as [[total bestMatch] bestContext].
  cbn [fst snd] in *.
  destruct (Z.ltb_spec 0 total) as [Hpos | _]; [|discriminate Hr].
  injection Hr as <-. unfold reports.
  cbn [pageNumber matchedText context confidence].
  split; [reflexivity|]. split; [|split; [apply Hoccurs|split; [apply Hoccurs|]]].
  - unfold Qlt, Qle. cbn [Qnum Qden]. rewrite Z2Pos.id by lia. lia.
  - intros Hcl. destruct (Hword Hcl) as [[Hz _] | [_ [_ Hin]]]; cbn [fst snd] in *;
      [lia | exact Hin].
Qed.

(** X16.  Every match [findMatchingText] returns reports one of the
    pages it was given, under the page's number: its matched text and its
    context stand in the text of that page as they are written, its
    confidence is above 0 and at most 1, and, for a context length that
    is not negative, its matched text is, but for the case of the letters,
    a word of the query. *)
Theorem findMatchingText_reports_pages pages searchQuery contextLength r :
  r ∈ findMatchingText pages searchQuery contextLength ->
  exists page, page ∈ pages /\ reports searchQuery contextLength page r.
Proof.
  unfold findMatchingText. intros Hr.
  rewrite (sort_by_perm byConfidence) in Hr.
  apply list_elem_of_omap in Hr as [page [Hpage Hmatch]].
  exists page. split; [exact Hpage | now apply pageMatch_reports].
Qed.

Lemma findMatchingText_reports_pages_witness :
  exists page,
    page ∈ samplePages /\ reports "enrollment age limit" 10 page sampleMatch.
Proof.
  apply (findMatchingText_reports_pages samplePages "enrollment age limit" 10 sampleMatch).
  vm_compute. apply list_elem_of_further, list_elem_of_here.
Defined.

Lemma keywordHits_found pageText words :
  0 < Examples.keywordHits pageText words
  <-> existsb (fun word => negb (JS.indexOf pageText word =? -1)) words = true.
Proof.
  induction words as [|word rest IH]; cbn [Examples.keywordHits existsb].
  - split; [lia | discriminate].
  - pose proof (keywordHits_bounds pageText rest) as Hrest.
    destruct (JS.indexOf pageText word =? -1); cbn [negb orb].
    + rewrite <- IH. lia.
    + split; [reflexivity | lia].
Qed.

(** The match pushed for a page: there is one exactly when the page
    holds a word of the query; it carries the number of the page, and its
    confidence is the share of the words found. *)
Lemma pageMatch_found searchQuery contextLength page :
  match pageMatch searchQuery contextLength page with
  | Some r =>
      mentions searchQuery page = true
      /\ pageNumber r = PDFExtraction.pageNumber page
      /\ confidence r
         = Qmake (Examples.keywordHits (JS.toLowerCase (PDFExtraction.text page))
                                       (wordsOf searchQuery))
                 (Z.to_pos (Z.of_nat (length (wordsOf searchQuery))))
  | None => mentions searchQuery page = false
  end.
Proof.
  unfold pageMatch, mentions.
  pose proof (matchStep_count (PDFExtraction.text page)
                (JS.toLowerCase (PDFExtraction.text page)) contextLength
                (wordsOf searchQuery) (0, EmptyString, EmptyString)) as Hcount.
  pose proof (keywordHits_found (JS.toLowerCase (PDFExtraction.text page))
                (wordsOf searchQuery)) as Hfound.
  destruct (fold_left _ _ _) as [[total bestMatch] bestContext].
  cbn [fst snd] in Hcount. rewrite Z.add_0_l in Hcount. subst total.
  destruct (Z.ltb_spec 0 (Examples.keywordHits
                            (JS.toLowerCase (PDFExtraction.text page))
                            (wordsOf searchQuery))) as [Hpos | Hnone].
  - cbn [pageNumber confidence]. split; [now apply Hfound | split; reflexivity].
  - destruct (existsb _ _); [|reflexivity].
    exfalso. apply Z.le_ngt in Hnone. apply Hnone, Hfound. reflexivity.
Qed.

Lemma omap_pageMatch_numbers searchQuery contextLength pages :
  map pageNumber (omap (pageMatch searchQuery contextLength) pages)
  = map PDFExtraction.pageNumber
        (filter (fun page => mentions searchQuery page) pages).
Proof.
  induction pages as [|page rest IH]; [reflexivity|].
  cbn [omap list_omap].
  pose proof (pageMatch_found searchQuery contextLength page) as Hpage.
  destruct (pageMatch searchQuery contextLength page) as [r|].
  - destruct Hpage as [Hmentions [Hnumber _]].
    rewrite filter_cons_True by (rewrite Hmentions; exact I).
    cbn [map]. now rewrite Hnumber, IH.
  - rewrite filter_cons_False by (rewrite Hpage; exact (fun H => H)).
    exact IH.
Qed.

(** X15.  [findMatchingText] returns one match for each page that holds
    at least one word of the query, and for no other page; the matches
    are ordered by falling confidence, and the confidence of a match is
    the number of query words found on its page over the number of query
    words. *)
Theorem findMatchingText_by_confidence pages searchQuery contextLength :
  map pageNumber (findMatchingText pages searchQuery contextLength)
  ≡ₚ map PDFExtraction.pageNumber
         (filter (fun page => mentions searchQuery page) pages)
  /\ StronglySorted not_below (findMatchingText pages searchQuery contextLength)
  /\ Forall (fun r =>
               exists page,
                 page ∈ pages
                 /\ mentions searchQuery page = true
                 /\ pageNumber r = PDFExtraction.pageNumber page
                 /\ confidence r
                    = Qmake (Examples.keywordHits
                               (JS.toLowerCase (PDFExtraction.text page))
                               (wordsOf searchQuery))
                            (Z.to_pos (Z.of_nat (length (wordsOf searchQuery)))))
            (findMatchingText pages searchQuery contextLength).
Proof.
  unfold findMatchingText. split; [|split].
  - rewrite <- (omap_pageMatch_numbers searchQuery contextLength pages).
    apply Permutation_map, (sort_by_perm byConfidence).
  - apply (sort_by_sorted byConfidence not_below byConfidence_not_below
             not_below_total not_below_trans).
  - apply Forall_forall. intros r Hr.
    rewrite (sort_by_perm byConfidence) in Hr.
    apply list_elem_of_omap in Hr as [page [Hpage Hmatch]].
    pose proof (pageMatch_found searchQuery contextLength page) as Hfound.
    rewrite Hmatch in Hfound. exists page. split; [exact Hpage | exact Hfound].
Qed.

End MatchResultFacts.

(* ===================================================================== *)
(** * Citations read from the answer of Claude *)
(* ===================================================================== *)

Section ScanFacts.

Context {A : Type} (matcher : string -> option (A * nat)).

Lemma scan_skip (a b : string) :
  scan matcher (String.length a) (a ++ b) = scan matcher 0 b.
Proof.
  induction a as [|c a IH]; [reflexivity|].
  rewrite append_cons. cbn [String.length scan]. exact IH.
Qed.

Lemma scan_match c r x n :
  matcher (String c r) = Some (x, n) ->
  scan matcher 0 (String c r) = x :: scan matcher (n - 1) r.
Proof. intros H. cbn [scan]. now rewrite H. Qed.

Lemma scan_no_match c r :
  matcher (String c r) = None -> scan matcher 0 (String c r) = scan matcher 0 r.
Proof. intros H. cbn [scan]. now rewrite H. Qed.

(** Every match of the scan is a match of the pattern at some place of
    the text. *)
Lemma scan_elem x s : forall skip,
  x ∈ scan matcher skip s ->
  exists before t n, s = (before ++ t)%string /\ matcher t = Some (x, n).
Proof.
  induction s as [|c r IH]; intros skip Hx; cbn [scan] in Hx.
  - now apply elem_of_nil in Hx.
  - assert (Hrest : forall k, x ∈ scan matcher k r ->
                exists before t n,
                  String c r = (before ++ t)%string /\ matcher t = Some (x, n)).
    { intros k Hk. destruct (IH k Hk) as [before [t [n [-> Ht]]]].
      exists (String c before), t, n. split; [reflexivity | exact Ht]. }
    destruct skip as [|k]; [|exact (Hrest k Hx)].
    destruct (matcher (String c r)) as [[a n]|] eqn:Hm; [|exact (Hrest _ Hx)].
    apply elem_of_cons in Hx as [-> | Hx]; [|exact (Hrest _ Hx)].
    exists EmptyString, (String c r), n. split; [reflexivity | exact Hm].
Qed.

End ScanFacts.

Section SpanFacts.

Lemma span_spec P s :
  JS.all_chars P (span P s).1 /\ s = ((span P s).1 ++ (span P s).2)%string.
Proof.
  induction s as [|c r IH]; cbn [span].
  - split; [constructor | reflexivity].
  - destruct (P c) eqn:Hc.
    + destruct (span P r) as [run rest]. cbn [fst snd] in *.
      destruct IH as [Hrun Hr]. split.
      * constructor; assumption.
      * rewrite append_cons. now f_equal.
    + split; [constructor | reflexivity].
Qed.

Lemma span_app P run rest :
  JS.all_chars P run ->
  match rest with String c _ => P c = false | EmptyString => True end ->
  span P (run ++ rest) = (run, rest).
Proof.
  intros Hrun Hrest. induction run as [|c run IH].
  - change (EmptyString ++ rest)%string with rest.
    destruct rest as [|c r]; cbn [span]; [reflexivity | now rewrite Hrest].
  - inversion Hrun as [|? ? Hc Hcs]; subst.
    rewrite append_cons. cbn [span]. rewrite Hc, (IH Hcs). reflexivity.
Qed.

Lemma prefix_append w : forall x, String.prefix w (w ++ x) = true.
Proof.
  induction w as [|c w IH]; intros x; [now destruct x|].
  rewrite append_cons. cbn [String.prefix].
  destruct (ascii_dec c c) as [_ | Hne]; [apply IH | now destruct Hne].
Qed.

Lemma drop_append w x : JS.drop (String.length w) (w ++ x) = x.
Proof.
  unfold JS.drop. rewrite length_append.
  replace (String.length w + String.length x - String.length w)%nat
    with (String.length x) by lia.
  pose proof (substring_middle w x EmptyString) as Hmiddle.
  now rewrite append_nil_r in Hmiddle.
Qed.

Lemma drop_occurs n s : occurs_in (JS.drop n s) s.
Proof. apply substring_occurs. Qed.

Lemma occurs_in_append_r a x s : occurs_in x s -> occurs_in x (a ++ s).
Proof.
  intros [before [after ->]]. exists (a ++ before)%string, after.
  now rewrite append_assoc.
Qed.

Lemma occurs_in_append_l x b : occurs_in x (x ++ b).
Proof. exists EmptyString, b. reflexivity. Qed.

End SpanFacts.

Section CitationFacts.

Import Switcher ClaudeCitations.

Lemma match_page_other c r :
  Ascii.eqb c "[" = false -> match_page (String c r) = None.
Proof.
  intros Hc. unfold match_page. cbn [String.prefix].
  destruct (ascii_dec "[" c) as [<- | _]; [discriminate Hc | reflexivity].
Qed.

Lemma scan_plain lead rest :
  plain lead -> scan match_page 0 (lead ++ rest) = scan match_page 0 rest.
Proof.
  intros Hlead. induction lead as [|c lead IH]; [reflexivity|].
  inversion Hlead as [|? ? Hc Hcs]; subst.
  rewrite append_cons, scan_no_match; [exact (IH Hcs)|].
  apply match_page_other. unfold Pipeline.no_bracket in Hc.
  now apply negb_true_iff in Hc.
Qed.

Lemma match_page_cited d ds quote rest :
  SourceExtraction.all_digits (String d ds) -> quotable quote ->
  match_page ("[Page " ++ String d ds ++ ": '" ++ quote ++ "']" ++ rest)
  = Some (String d ds, quote,
          (6 + String.length (String d ds) + 3 + String.length quote + 2)%nat).
Proof.
  intros Hd [Hne Hq]. unfold match_page.
  rewrite prefix_append.
  pose proof (drop_append "[Page " (String d ds ++ ": '" ++ quote ++ "']" ++ rest))
    as Hdrop.
  change (String.length "[Page ") with 6%nat in Hdrop. rewrite Hdrop.
  change (": '" ++ quote ++ "']" ++ rest)%string
    with (String ":" (String " " (String "'" (quote ++ "']" ++ rest)))).
  rewrite span_digits_app; [|exact Hd | reflexivity].
  change (Ascii.eqb ":" ":" && Ascii.eqb " " " " && is_quote "'") with true.
  cbv iota.
  change ("']" ++ rest)%string with (String "'" (String "]" rest)).
  rewrite span_app; [|exact Hq | reflexivity].
  destruct quote as [|x xs]; [now destruct Hne|]. reflexivity.
Qed.

(** A citation at the head of the text is the first match, and the scan
    goes on with what follows its closing bracket. *)
Lemma scan_cited d ds quote rest :
  SourceExtraction.all_digits (String d ds) -> quotable quote ->
  scan match_page 0 ("[Page " ++ String d ds ++ ": '" ++ quote ++ "']" ++ rest)
  = (String d ds, quote) :: scan match_page 0 rest.
Proof.
  intros Hd Hq.
  pose proof (match_page_cited d ds quote rest Hd Hq) as Hm.
  change ("[Page " ++ String d ds ++ ": '" ++ quote ++ "']" ++ rest)%string
    with (String "[" ("Page " ++ String d ds ++ ": '" ++ quote ++ "']" ++ rest)) in *.
  rewrite (scan_match _ _ _ _ _ Hm). f_equal.
  replace ("Page " ++ String d ds ++ ": '" ++ quote ++ "']" ++ rest)%string
    with (("Page " ++ String d ds ++ ": '" ++ quote ++ "']") ++ rest)%string
    by (rewrite !append_assoc; reflexivity).
  replace (6 + String.length (String d ds) + 3 + String.length quote + 2 - 1)%nat
    with (String.length ("Page " ++ String d ds ++ ": '" ++ quote ++ "']")%string).
  - apply scan_skip.
  - rewrite !length_append. cbn [String.length]. lia.
Qed.

Lemma scan_quoting quotes tail :
  Forall well_quoted quotes -> plain tail ->
  scan match_page 0 (quoting quotes tail)
  = map (fun q => (JS.show (Zpos q.1.2), q.2)) quotes.
Proof.
  intros Hquotes Htail.
  induction Hquotes as [|[[lead n] quote] rest [Hlead [_ Hquote]] _ IH];
    cbn [quoting map fst snd] in *.
  - rewrite <- (append_nil_r tail). now rewrite scan_plain.
  - rewrite scan_plain by exact Hlead.
    destruct (show_positive n) as [d [ds [Hshow [Hdigits _]]]].
    rewrite Hshow.
    rewrite (scan_cited d ds quote (quoting rest tail) Hdigits Hquote).
    now rewrite IH.
Qed.

Lemma parseInt_show n :
  Zpos n < 2 ^ 53 -> JS.parseInt (JS.show (Zpos n)) = JS.Finite (Zpos n).
Proof.
  intros Hn. destruct (show_positive n) as [d [ds [Hshow [_ Hparse]]]].
  rewrite Hshow. unfold JS.parseInt. rewrite Hparse. now apply toNumber_exact.
Qed.

(** X17.  An answer in the format asked of the model is read back as it
    was written: for passages quoted with their pages, the page numbers
    below 2^53, each after text without opening bracket, the citations
    are the passages in the order of the answer, each with its page as
    chunk index. *)
Theorem quoted_passages_are_read_back quotes tail :
  quotes <> [] -> Forall well_quoted quotes -> plain tail ->
  parsedCitations (quoting quotes tail) = map cited quotes.
Proof.
  intros Hne Hquotes Htail. unfold parsedCitations.
  rewrite (scan_quoting quotes tail Hquotes Htail).
  assert (Hread : map pageCitation
                      (map (fun q : string * positive * string =>
                              (JS.show (Zpos q.1.2), q.2)) quotes)
                  = map cited quotes).
  { clear Hne. induction Hquotes as [|q rest [_ [Hpage _]] _ IH]; [reflexivity|].
    cbn [map]. rewrite IH. f_equal.
    unfold pageCitation, cited. cbn [fst snd]. now rewrite parseInt_show. }
  destruct quotes as [|q rest]; [now destruct Hne|]. exact Hread.
Qed.

Lemma quoted_passages_are_read_back_witness :
  parsedCitations (quoting twoQuotes " as stated.") = map cited twoQuotes.
Proof.
  apply (quoted_passages_are_read_back twoQuotes " as stated.").
  - discriminate.
  - repeat constructor; discriminate.
  - repeat constructor.
Defined.

Lemma match_page_groups t ds quote n :
  match_page t = Some (ds, quote, n) ->
  SourceExtraction.all_digits ds /\ quote <> EmptyString /\ occurs_in quote t.
Proof.
  unfold match_page. destruct (String.prefix "[Page " t); [|discriminate].
  pose proof (span_digits_spec (JS.drop 6 t)) as [Hdigits Hdrop].
  pose proof (drop_occurs 6 t) as Ht.
  destruct (SourceExtraction.span_digits (JS.drop 6 t)) as [digits rest].
  cbn [fst snd] in *.
  destruct digits as [|d digits]; [discriminate|].
  destruct rest as [|c1 [|c2 [|q1 r]]]; try discriminate.
  destruct (Ascii.eqb c1 ":" && Ascii.eqb c2 " " && is_quote q1); [|discriminate].
  pose proof (span_spec (fun c => negb (is_quote c)) r) as [_ Hr].
  destruct (span (fun c => negb (is_quote c)) r) as [run rest].
  cbn [fst snd] in *.
  destruct run as [|x xs]; [discriminate|].
  destruct rest as [|q2 [|c3 rest]]; try discriminate.
  destruct (is_quote q2 && Ascii.eqb c3 "]"); [|discriminate].
  intros Heq. injection Heq as <- <- _.
  split; [exact Hdigits|]. split; [discriminate|].
  eapply occurs_in_trans; [|exact Ht]. rewrite Hdrop.
  apply occurs_in_append_r. do 3 apply occurs_in_cons.
  rewrite Hr. apply occurs_in_append_l.
Qed.

Lemma match_quoted_group t run n :
  match_quoted t = Some (run, n) ->
  (20 <= String.length run)%nat /\ occurs_in run t.
Proof.
  unfold match_quoted. destruct t as [|q r]; [discriminate|].
  destruct (Ascii.eqb q single_quote); [|discriminate].
  pose proof (span_spec (fun c => negb (Ascii.eqb c single_quote)) r) as [_ Hr].
  destruct (span (fun c => negb (Ascii.eqb c single_quote)) r) as [passage rest].
  cbn [fst snd] in *.
  destruct rest as [|c rest]; [discriminate|].
  destruct (Nat.leb_spec 20 (String.length passage)) as [Hlong | _]; [|discriminate].
  intros Heq. injection Heq as <- _.
  split; [exact Hlong|]. apply occurs_in_cons. rewrite Hr. apply occurs_in_append_l.
Qed.

Lemma occurs_in_suffix x before t : occurs_in x t -> occurs_in x (before ++ t).
Proof. apply occurs_in_append_r. Qed.

Lemma pageCitation_from_answer content m :
  m ∈ scan match_page 0 content -> from_answer content (pageCitation m).
Proof.
  intros Hm. destruct (scan_elem _ _ _ _ Hm) as [before [t [n [-> Ht]]]].
  destruct m as [ds quote].
  destruct (match_page_groups _ _ _ _ Ht) as [Hdigits [Hne Hocc]].
  unfold from_answer, pageCitation. cbn [document_index chunk_index source_content fst snd].
  split; [reflexivity|]. split; [now apply parseInt_nonnegative|].
  split; [|now apply occurs_in_suffix].
  destruct quote; [now destruct Hne | unfold JS.len; cbn [String.length]; lia].
Qed.

Lemma quoteCitation_from_answer content quote :
  quote ∈ scan match_quoted 0 content ->
  from_answer content (quoteCitation quote) /\ unpaged (quoteCitation quote).
Proof.
  intros Hq. destruct (scan_elem _ _ _ _ Hq) as [before [t [n [-> Ht]]]].
  destruct (match_quoted_group _ _ _ Ht) as [Hlong Hocc].
  unfold from_answer, unpaged, quoteCitation, JS.len.
  cbn [document_index chunk_index source_content JS.nonnegative].
  split; [|split; [reflexivity | lia]].
  split; [reflexivity|]. split; [lia|]. split; [lia|].
  now apply occurs_in_suffix.
Qed.

(** X18.  Every citation read from the text of the answer quotes the
    answer: its content is a passage of the answer that is not empty, its
    document index is 0 and its chunk index, the page, is not negative.
    When the answer has no page-tagged quote, at most three citations are
    read, each without page (chunk index 0) and of 20 characters or
    more. *)
Theorem parsedCitations_quote_the_answer content :
  Forall (from_answer content) (parsedCitations content)
  /\ (scan match_page 0 content = [] ->
      (length (parsedCitations content) <= 3)%nat
      /\ Forall unpaged (parsedCitations content)).
Proof.
  unfold parsedCitations.
  assert (Hquotes : Forall (fun c => from_answer content c /\ unpaged c)
                      (map quoteCitation (take 3 (scan match_quoted 0 content)))).
  { apply Forall_map, Forall_take, Forall_forall. intros quote Hq.
    now apply quoteCitation_from_answer. }
  destruct (scan match_page 0 content) as [|m ms] eqn:Hscan.
  - split.
    + eapply Forall_impl; [exact Hquotes|]. now intros c [Hc _].
    + intros _. split.
      * rewrite length_map, length_take. lia.
      * eapply Forall_impl; [exact Hquotes|]. now intros c [_ Hc].
  - split; [|discriminate].
    apply Forall_map, Forall_forall. intros m' Hm'.
    apply pageCitation_from_answer. now rewrite Hscan.
Qed.

End CitationFacts.
